(** * A validation engine driven by struct tags: a shallow embedding

    The development follows the two source files of the package:
    [util.go] (the registry [funcs], the reserved names [unFuncs],
    [AddCustomFunc], [Funcs.Call], and the tag compiler [getValidFuncs],
    [getRegFuncs], [parseFunc], [numIn], [trim], [parseParam],
    [mergeParam]) and the file declaring [Error], [Result], [Validation]
    and its methods ([apply], [setError], [SetError], [Error], [Clear],
    [HasErrors], [Valid]).

    Go strings are byte sequences: they are [string]s of the Standard
    Library, one [ascii] per byte.  Go [int] indices are [Z], so that the
    [-1] of [strings.Index] is kept.  A run-time panic is an outcome of its
    own, distinct from a returned [error].

    The [*Error] pointers shared by [Validation.Errors],
    [Validation.ErrorsMap] and [Result.Error] are addresses into one store
    of [Error] objects, so that a write through a [Result] is seen through
    the context.  The registry [funcs], a package variable, is passed to
    the functions that read it.

    What reflection reads of a record is its list of fields, each with
    its name, its tag and its current value; the records modelled are
    structs, or non-nil pointers to structs, whose annotated fields are
    exported and hold a value other than the nil interface. *)

From Stdlib Require Import ZArith Ascii String List Bool Lia.
From stdpp Require Import gmap strings list fin_maps.

Local Open Scope Z_scope.
Local Open Scope string_scope.
Local Open Scope list_scope.

(** ** Package [strings] *)

Module strings.

(** [strings.HasPrefix]. *)
Fixpoint HasPrefix (s p : string) : bool :=
  match p, s with
  | EmptyString, _ => true
  | String _ _, EmptyString => false
  | String a p', String b s' => if Ascii.eqb a b then HasPrefix s' p' else false
  end.

(** Byte offset of the first occurrence of [sub] at or after position
    [pos] of the remaining text. *)
Fixpoint indexFrom (s sub : string) (pos : Z) : Z :=
  if HasPrefix s sub then pos
  else match s with
       | EmptyString => -1
       | String _ s' => indexFrom s' sub (pos + 1)
       end.

(** [strings.Index]: offset of the first occurrence, or [-1]. *)
Definition Index (s sub : string) : Z := indexFrom s sub 0.

Fixpoint lastIndexFrom (s sub : string) (pos : Z) : Z :=
  match s with
  | EmptyString => if HasPrefix s sub then pos else -1
  | String _ s' =>
      let later := lastIndexFrom s' sub (pos + 1) in
      if (0 <=? later)%Z then later
      else if HasPrefix s sub then pos else -1
  end.

(** [strings.LastIndex]: offset of the last occurrence, or [-1]. *)
Definition LastIndex (s sub : string) : Z := lastIndexFrom s sub 0.

(** The pieces of [s] between the occurrences of [sep], scanning left to
    right; [skip] counts the bytes of a separator still to be passed.
    The head of the result is the piece under construction. *)
Fixpoint splitFrom (sep : string) (skip : nat) (s : string) : list string :=
  match s with
  | EmptyString => [EmptyString]
  | String c s' =>
      match skip with
      | S k => splitFrom sep k s'
      | O =>
          if HasPrefix s sep
          then EmptyString :: splitFrom sep (Nat.pred (String.length sep)) s'
          else match splitFrom sep O s' with
               | h :: t => String c h :: t
               | [] => [String c EmptyString]
               end
      end
  end.

(** [strings.Split] for a non-empty separator (the package only splits
    on [";"], [","] and ["."]). *)
Definition Split (s sep : string) : list string := splitFrom sep O s.

Definition byte (n : nat) : ascii := ascii_of_nat n.

(** The UTF-8 encodings of the code points with the Unicode White_Space
    property, which is what [unicode.IsSpace] tests: the six ASCII ones,
    U+0085, U+00A0, U+1680, U+2000..U+200A, U+2028, U+2029, U+202F,
    U+205F and U+3000. *)
Definition spaces : list string :=
  map (fun n => String (byte n) EmptyString) [9; 10; 11; 12; 13; 32]%nat
  ++ map (fun n => String (byte 194) (String (byte n) EmptyString)) [133; 160]%nat
  ++ [String (byte 225) (String (byte 154) (String (byte 128) EmptyString))]
  ++ map (fun n => String (byte 226) (String (byte 128) (String (byte n) EmptyString)))
       [128; 129; 130; 131; 132; 133; 134; 135; 136; 137; 138; 168; 169; 175]%nat
  ++ [String (byte 226) (String (byte 129) (String (byte 159) EmptyString));
      String (byte 227) (String (byte 128) (String (byte 128) EmptyString))].

Fixpoint drop (n : nat) (s : string) : string :=
  match n, s with
  | O, _ => s
  | S _, EmptyString => EmptyString
  | S k, String _ s' => drop k s'
  end.

Fixpoint take (n : nat) (s : string) : string :=
  match n, s with
  | O, _ => EmptyString
  | S _, EmptyString => EmptyString
  | S k, String c s' => String c (take k s')
  end.

(** Width in bytes of the white-space rune [s] starts with ([0] when it
    starts with none). *)
Definition spaceWidth (sps : list string) (s : string) : nat :=
  match List.find (HasPrefix s) sps with
  | Some sp => String.length sp
  | None => O
  end.

Fixpoint trimLeftFuel (sps : list string) (fuel : nat) (s : string) : string :=
  match fuel with
  | O => s
  | S k =>
      match spaceWidth sps s with
      | O => s
      | w => trimLeftFuel sps k (drop w s)
      end
  end.

Definition rev (s : string) : string :=
  string_of_list_ascii (List.rev (list_ascii_of_string s)).

Definition TrimLeftSpace (s : string) : string :=
  trimLeftFuel spaces (String.length s) s.

(** A trailing rune is recognised on the reversed bytes: every encoding
    in [spaces] is a lead byte followed by continuation bytes, so the
    backward decoding of Go finds exactly these. *)
Definition TrimRightSpace (s : string) : string :=
  rev (trimLeftFuel (map rev spaces) (String.length s) (rev s)).

(** [strings.TrimSpace]. *)
Definition TrimSpace (s : string) : string := TrimRightSpace (TrimLeftSpace s).

(** The slice expression [s[lo:hi]]; [None] is the run-time panic
    "slice bounds out of range". *)
Definition slice (s : string) (lo hi : Z) : option string :=
  if ((0 <=? lo)%Z && (lo <=? hi)%Z && (hi <=? Z.of_nat (String.length s))%Z)%bool
  then Some (take (Z.to_nat (hi - lo)) (drop (Z.to_nat lo) s))
  else None.

(** [s[:hi]] and [s[lo:]]. *)
Definition sliceTo (s : string) (hi : Z) : option string := slice s 0 hi.
Definition sliceFrom (s : string) (lo : Z) : option string :=
  slice s lo (Z.of_nat (String.length s)).

End strings.


(** ** Package [strconv] *)

Module strconv.

Definition digit (c : ascii) : option Z :=
  let n := Z.of_nat (nat_of_ascii c) in
  if ((48 <=? n)%Z && (n <=? 57)%Z)%bool then Some (n - 48) else None.

Fixpoint digits (s : string) (acc : Z) : option Z :=
  match s with
  | EmptyString => Some acc
  | String c s' =>
      match digit c with
      | Some d => digits s' (10 * acc + d)
      | None => None
      end
  end.

(** [strconv.Atoi] on a 64-bit [int]: an optional sign, then at least one
    decimal digit; [None] is the syntax or range error. *)
Definition Atoi (s : string) : option Z :=
  let '(neg, body) :=
    match s with
    | String "-"%char r => (true, r)
    | String "+"%char r => (false, r)
    | _ => (false, s)
    end in
  match body with
  | EmptyString => None
  | _ =>
      match digits body 0 with
      | Some n =>
          let v := if neg then - n else n in
          if ((- 2 ^ 63 <=? v)%Z && (v <=? 2 ^ 63 - 1)%Z)%bool then Some v else None
      | None => None
      end
  end.

End strconv.

(** ** Outcomes and errors *)

(** The [error] values the package makes.  The texts built with
    [fmt.Errorf] are kept as constructors with their arguments. *)
Inductive error : Type :=
| InvalidFunctionName (name : string)
| DoesNotExist (name : string)
| ParamsNotAdapted
| Recovered (what : string)
| InvalidMatchFunction
| RegexpError (msg : string)
| RequireParameters (name : string) (num : Z)
| InvalidValidFunction
| DoesntExsits (name : string)
| AtoiError (s : string)
| DoesNotSupport (what : string)
| MustBeStruct
| ErrorsNew (message : string).

(** What a call does: it returns a value, returns a non-nil [error], or
    panics. *)
Inductive outcome (A : Type) : Type :=
| Ret (a : A)
| Fail (e : error)
| Panic (what : string).

Arguments Ret {A} a.
Arguments Fail {A} e.
Arguments Panic {A} what.

Definition bind {A B : Type} (o : outcome A) (k : A -> outcome B) : outcome B :=
  match o with
  | Ret a => k a
  | Fail e => Fail e
  | Panic p => Panic p
  end.

Notation "'let*' x := o 'in' k" := (bind o (fun x => k))
  (at level 10, x pattern, o at level 200, k at level 200).

(** The deferred [recover] of [parseFunc] and [Funcs.Call]: a panic
    becomes the returned error. *)
Definition recover {A : Type} (o : outcome A) : outcome A :=
  match o with
  | Panic p => Fail (Recovered p)
  | _ => o
  end.

(** A slice expression inside a computation. *)
Definition sliced (o : option string) : outcome string :=
  match o with
  | Some s => Ret s
  | None => Panic "slice bounds out of range"
  end.

(** ** The predicate library

    The validator structs are built by the methods of [Validation]; their
    method bodies ([IsSatisfied], [DefaultMessage], [GetLimitValue]), the
    message templates and the fixed patterns are declared in a file of the
    package that is not among the sources, and package [regexp] is Go's. *)

(** The struct literals the methods of [Validation] build, each with its
    [Key]. *)
Inductive Validator (Regexp : Type) : Type :=
| Required (Key : string)
| Min (Min : Z) (Key : string)
| Max (Max : Z) (Key : string)
| Range (Min Max : Z) (Key : string)
| MinSize (Min : Z) (Key : string)
| MaxSize (Max : Z) (Key : string)
| Length (N : Z) (Key : string)
| Alpha (Key : string)
| Numeric (Key : string)
| AlphaNumeric (Key : string)
| Match (Regexp_ : Regexp) (Key : string)
| NoMatch (Regexp_ : Regexp) (Key : string)
| AlphaDash (Key : string)
| Email (Key : string)
| IP (Key : string)
| Base64 (Key : string)
| Mobile (Key : string)
| Tel (Key : string)
| Phone (Key : string)
| ZipCode (Key : string).

Arguments Required {Regexp}.
Arguments Min {Regexp}.
Arguments Max {Regexp}.
Arguments Range {Regexp}.
Arguments MinSize {Regexp}.
Arguments MaxSize {Regexp}.
Arguments Length {Regexp}.
Arguments Alpha {Regexp}.
Arguments Numeric {Regexp}.
Arguments AlphaNumeric {Regexp}.
Arguments Match {Regexp}.
Arguments NoMatch {Regexp}.
Arguments AlphaDash {Regexp}.
Arguments Email {Regexp}.
Arguments IP {Regexp}.
Arguments Base64 {Regexp}.
Arguments Mobile {Regexp}.
Arguments Tel {Regexp}.
Arguments Phone {Regexp}.
Arguments ZipCode {Regexp}.

(** Modelled from the spec: [GetKey] is a method of the validator structs,
    declared in the predicate library file that is not among the sources;
    the spec says each predicate "carries its own key identifying which
    field/rule produced it". *)
Definition GetKey {Regexp : Type} (chk : Validator Regexp) : string :=
  match chk with
  | Required k | Alpha k | Numeric k | AlphaNumeric k | AlphaDash k | Email k
  | IP k | Base64 k | Mobile k | Tel k | Phone k | ZipCode k => k
  | Min _ k | Max _ k | MinSize _ k | MaxSize _ k | Length _ k => k
  | Range _ _ k => k
  | Match _ k | NoMatch _ k => k
  end.

(** What the engine takes from outside the two source files. *)
Class Library : Type := {
  (** the dynamic value of a record field, an [interface{}] *)
  Obj : Type;
  (** [*regexp.Regexp] and [regexp.Compile] (the text of its error) *)
  Regexp : Type;
  Compile : string -> Regexp + string;
  (** the [interface{}] returned by [GetLimitValue] *)
  Limit : Type;
  IsSatisfied : Validator Regexp -> Obj -> bool;
  DefaultMessage : Validator Regexp -> string;
  GetLimitValue : Validator Regexp -> option Limit;
  (** the package variable [MessageTmpls], a [map[string]string] *)
  MessageTmpls : gmap string string;
  (** the arguments of [fmt.Sprintf] and the function itself *)
  FmtArg : Type;
  Sprintf : string -> list FmtArg -> string
}.

(** ** Reflection on the methods of [*Validation] *)

(** [reflect.Kind], as far as the signatures of the package need it. *)
Inductive Kind : Type :=
| KInt
| KString
| KInterface
| KSlice
| KPtr (elem : string).

(** [Kind.String]. *)
Definition Kind_String (k : Kind) : string :=
  match k with
  | KInt => "int"
  | KString => "string"
  | KInterface => "interface"
  | KSlice => "slice"
  | KPtr _ => "ptr"
  end.

(** The exported methods of [*Validation]. *)
Module Method.

Inductive t : Type :=
| Alpha | AlphaDash | AlphaNumeric | Base64 | Clear | Email | Error | ErrorMap
| HasErrors | IP | Length | Match | Max | MaxSize | Min | MinSize | Mobile
| NoMatch | Numeric | Phone | Range | Required | SetError | Tel | Valid | ZipCode.

(** The method set in the order [reflect] lists it: sorted by name. *)
Definition all : list t :=
  [Alpha; AlphaDash; AlphaNumeric; Base64; Clear; Email; Error; ErrorMap;
   HasErrors; IP; Length; Match; Max; MaxSize; Min; MinSize; Mobile;
   NoMatch; Numeric; Phone; Range; Required; SetError; Tel; Valid; ZipCode].

(** [m.Name]. *)
Definition Name (m : t) : string :=
  match m with
  | Alpha => "Alpha" | AlphaDash => "AlphaDash" | AlphaNumeric => "AlphaNumeric"
  | Base64 => "Base64" | Clear => "Clear" | Email => "Email" | Error => "Error"
  | ErrorMap => "ErrorMap" | HasErrors => "HasErrors" | IP => "IP"
  | Length => "Length" | Match => "Match" | Max => "Max" | MaxSize => "MaxSize"
  | Min => "Min" | MinSize => "MinSize" | Mobile => "Mobile" | NoMatch => "NoMatch"
  | Numeric => "Numeric" | Phone => "Phone" | Range => "Range"
  | Required => "Required" | SetError => "SetError" | Tel => "Tel"
  | Valid => "Valid" | ZipCode => "ZipCode"
  end.

Definition receiver : Kind := KPtr "validation.Validation".

(** The parameter types of [m.Func], the receiver first, read off the
    method declarations. *)
Definition In (m : t) : list Kind :=
  match m with
  | Clear | HasErrors | ErrorMap => [receiver]
  | Error => [receiver; KString; KSlice]
  | Valid => [receiver; KInterface]
  | SetError => [receiver; KString; KString]
  | Required | Alpha | Numeric | AlphaNumeric | AlphaDash | Email | IP | Base64
  | Mobile | Tel | Phone | ZipCode => [receiver; KInterface; KString; KString]
  | Min | Max | MinSize | MaxSize | Length =>
      [receiver; KInterface; KInt; KString; KString]
  | Range => [receiver; KInterface; KInt; KInt; KString; KString]
  | Match | NoMatch =>
      [receiver; KInterface; KPtr "regexp.Regexp"; KString; KString]
  end.

End Method.

(** ** The error model: [Error], [Result], [Validation] *)

(** An [*Error] is an address in the store of [Error] objects. *)
Abbreviation addr := nat.

Section Engine.

Context {L : Library}.


Record Error : Type := mkError {
  Message : string;
  Key : string;
  Name : string;
  Field : string;
  Tmpl : string;
  Value : option Obj;
  LimitValue : option Limit
}.

(** The zero value [Error{}]. *)
Definition zeroError : Error :=
  {| Message := ""; Key := ""; Name := ""; Field := ""; Tmpl := "";
     Value := None; LimitValue := None |}.

(** [Result]: the [Error] pointer ([None] is [nil]) and [Ok]. *)
Record Result : Type := mkResult {
  Error' : option addr;
  Ok : bool
}.

(** A validation context, with the store its pointers point into.
    [ErrorsMap = None] is the [nil] map. *)
Record Validation : Type := mkValidation {
  heap : list Error;
  Errors : list addr;
  ErrorsMap : option (gmap string addr)
}.

(** The zero value [Validation{}], over an empty store. *)
Definition newValidation : Validation :=
  {| heap := []; Errors := []; ErrorsMap := None |}.

(** [&Error{...}]: a fresh object at the end of the store. *)
Definition alloc (v : Validation) (e : Error) : Validation * addr :=
  ({| heap := heap v ++ [e]; Errors := Errors v; ErrorsMap := ErrorsMap v |},
   length (heap v)).

(** Reading through a pointer; every address in use comes from [alloc]
    and is in the store. *)
Definition deref (v : Validation) (a : addr) : Error :=
  default zeroError (heap v !! a).

(** Writing through a pointer. *)
Definition store (v : Validation) (a : addr) (f : Error -> Error) : Validation :=
  {| heap := alter f a (heap v); Errors := Errors v; ErrorsMap := ErrorsMap v |}.


Definition setMessage (message : string) (e : Error) : Error :=
  {| Message := message; Key := Key e; Name := Name e; Field := Field e;
     Tmpl := Tmpl e; Value := Value e; LimitValue := LimitValue e |}.


(** [func (r *Result) Message(message string, args ...interface{}) *Result]. *)
Definition Result_Message (v : Validation) (r : Result) (message : string)
    (args : list FmtArg) : Validation * Result :=
  match Error' r with
  | Some a =>
      match args with
      | [] => (store v a (setMessage message), r)
      | _ => (store v a (setMessage (Sprintf message args)), r)
      end
  | None => (v, r)
  end.

(** [func (v *Validation) Clear()]. *)
Definition Clear (v : Validation) : Validation :=
  {| heap := heap v; Errors := []; ErrorsMap := None |}.

(** [func (v *Validation) HasErrors() bool]. *)
Definition HasErrors (v : Validation) : bool :=
  (0 <? Z.of_nat (length (Errors v)))%Z.

(** [func (v *Validation) ErrorMap() map[string]*Error]. *)
Definition ErrorMap (v : Validation) : option (gmap string addr) := ErrorsMap v.

(** Reading a map, [nil] or not: [m[k]] with its presence flag. *)
Definition mapGet (m : option (gmap string addr)) (k : string) : option addr :=
  match m with
  | Some m' => m' !! k
  | None => None
  end.

(** [func (v *Validation) Error(message string, args ...interface{}) *Result]. *)
Definition Validation_Error (v : Validation) (message : string)
    (args : list FmtArg) : Validation * Result :=
  let '(v1, a) := alloc v zeroError in
  let '(v2, result) :=
    Result_Message v1 {| Error' := Some a; Ok := false |} message args in
  ({| heap := heap v2; Errors := Errors v2 ++ [a]; ErrorsMap := ErrorsMap v2 |},
   result).

(** [func (v *Validation) setError(err *Error)]. *)
Definition setError (v : Validation) (err : addr) : Validation :=
  let errors := Errors v ++ [err] in
  let m := match ErrorsMap v with
           | Some m' => m'
           | None => ∅
           end in
  let m := match m !! Field (deref v err) with
           | Some _ => m
           | None => <[Field (deref v err) := err]> m
           end in
  {| heap := heap v; Errors := errors; ErrorsMap := Some m |}.

(** [func (v *Validation) SetError(fieldName string, errMsg string) *Error]. *)
Definition SetError (v : Validation) (fieldName errMsg : string)
  : Validation * addr :=
  let '(v1, err) :=
    alloc v {| Message := errMsg; Key := fieldName; Name := ""; Field := fieldName;
               Tmpl := errMsg; Value := None; LimitValue := None |} in
  (setError v1 err, err).

(** [func (v *Validation) apply(chk Validator, obj interface{}, errDesc string) *Result]. *)
Definition apply (v : Validation) (chk : Validator Regexp) (obj : Obj)
    (errDesc : string) : Validation * Result :=
  if IsSatisfied chk obj then (v, {| Error' := None; Ok := true |})
  else
    let key := GetKey chk in
    let parts := strings.Split key "." in
    let '(Field, Name) :=
      match parts with
      | [p0; p1] => (p0, p1)
      | _ => ("", key)
      end in
    let errMsg :=
      if String.eqb (strings.TrimSpace errDesc) "" then DefaultMessage chk
      else errDesc in
    let '(v1, err) :=
      alloc v {| Message := errMsg; Key := key; Name := Name; Field := Field;
                 Value := Some obj;
                 Tmpl := default "" (MessageTmpls !! Name);
                 LimitValue := GetLimitValue chk |} in
    (setError v1 err, {| Error' := Some err; Ok := false |}).

(** ** The registry: [funcs], [unFuncs], [AddCustomFunc], [Funcs.Call] *)

Definition ValidTag : string := "valid".
Definition ValidErrDescTag : string := "vdesc".

(** [unFuncs]: the names that do not belong to validation functions. *)
Definition unFuncs : gmap string bool :=
  list_to_map
    [("Clear", true); ("HasErrors", true); ("ErrorMap", true); ("Error", true);
     ("apply", true); ("Check", true); ("Valid", true); ("NoMatch", true)].

(** Reading [unFuncs[name]]: a missing key reads [false]. *)
Definition isUnFunc (name : string) : bool := default false (unFuncs !! name).

(** An [interface{}] handed to a call through reflection: the context
    pointer, a field value, or a compiled parameter. *)
Inductive Arg : Type :=
| AValidation
| AObj (obj : Obj)
| AInt (i : Z)
| AStr (s : string)
| ARegexp (r : Regexp).

(** [type CustomFunc func(v *Validation, obj interface{}, key string)];
    [None] is a panic of the function. *)
Definition CustomFunc : Type := Validation -> Obj -> string -> option Validation.

(** What a [reflect.Value] of the registry holds. *)
Inductive RegFunc : Type :=
| FMethod (m : Method.t)
| FCustom (f : CustomFunc).

(** [type Funcs map[string]reflect.Value]. *)
Local Abbreviation Funcs := (gmap string RegFunc).

(** [fn.Type().In(i)] for all [i]. *)
Definition funcIn (fn : RegFunc) : list Kind :=
  match fn with
  | FMethod m => Method.In m
  | FCustom _ => [Method.receiver; KInterface; KString]
  end.

(** [fn.Type().NumIn()]. *)
Definition NumIn (fn : RegFunc) : Z := Z.of_nat (length (funcIn fn)).

(** [func init()]: every method that is not in [unFuncs] is registered
    under its name. *)
Definition init : Funcs :=
  foldl (fun funcs m =>
           if isUnFunc (Method.Name m) then funcs
           else <[Method.Name m := FMethod m]> funcs)
        ∅ Method.all.

(** [func AddCustomFunc(name string, f CustomFunc) error]: the registry
    after the call and the returned error ([None] is [nil]). *)
Definition AddCustomFunc (funcs : Funcs) (name : string) (f : CustomFunc)
  : Funcs * option error :=
  if isUnFunc name then (funcs, Some (InvalidFunctionName name))
  else (<[name := FCustom f]> funcs, None).

(** [type ValidFunc struct]. *)
Record ValidFunc : Type := mkValidFunc {
  ValidFunc_Name : string;
  ValidFunc_ErrMsg : string;
  ValidFunc_Params : list Arg
}.

(** The methods, called with the arguments reflection passes; [None]
    when [reflect] panics on the argument list.  [Error] and [Valid],
    which [unFuncs] keeps out of the registry, are not called this way. *)
Definition invoke (m : Method.t) (v : Validation) (args : list Arg)
  : option (Validation * option Result) :=
  let validate chk obj d :=
    let '(v', r) := apply v chk obj d in Some (v', Some r) in
  match m, args with
  | Method.Required, [AValidation; AObj o; AStr k; AStr d] => validate (Required k) o d
  | Method.Min, [AValidation; AObj o; AInt n; AStr k; AStr d] => validate (Min n k) o d
  | Method.Max, [AValidation; AObj o; AInt n; AStr k; AStr d] => validate (Max n k) o d
  | Method.Range, [AValidation; AObj o; AInt lo; AInt hi; AStr k; AStr d] =>
      validate (Range lo hi k) o d
  | Method.MinSize, [AValidation; AObj o; AInt n; AStr k; AStr d] =>
      validate (MinSize n k) o d
  | Method.MaxSize, [AValidation; AObj o; AInt n; AStr k; AStr d] =>
      validate (MaxSize n k) o d
  | Method.Length, [AValidation; AObj o; AInt n; AStr k; AStr d] =>
      validate (Length n k) o d
  | Method.Alpha, [AValidation; AObj o; AStr k; AStr d] => validate (Alpha k) o d
  | Method.Numeric, [AValidation; AObj o; AStr k; AStr d] => validate (Numeric k) o d
  | Method.AlphaNumeric, [AValidation; AObj o; AStr k; AStr d] =>
      validate (AlphaNumeric k) o d
  | Method.Match, [AValidation; AObj o; ARegexp r; AStr k; AStr d] =>
      validate (Match r k) o d
  | Method.NoMatch, [AValidation; AObj o; ARegexp r; AStr k; AStr d] =>
      validate (NoMatch r k) o d
  | Method.AlphaDash, [AValidation; AObj o; AStr k; AStr d] => validate (AlphaDash k) o d
  | Method.Email, [AValidation; AObj o; AStr k; AStr d] => validate (Email k) o d
  | Method.IP, [AValidation; AObj o; AStr k; AStr d] => validate (IP k) o d
  | Method.Base64, [AValidation; AObj o; AStr k; AStr d] => validate (Base64 k) o d
  | Method.Mobile, [AValidation; AObj o; AStr k; AStr d] => validate (Mobile k) o d
  | Method.Tel, [AValidation; AObj o; AStr k; AStr d] => validate (Tel k) o d
  | Method.Phone, [AValidation; AObj o; AStr k; AStr d] => validate (Phone k) o d
  | Method.ZipCode, [AValidation; AObj o; AStr k; AStr d] => validate (ZipCode k) o d
  | Method.SetError, [AValidation; AStr f; AStr msg] =>
      Some (fst (SetError v f msg), None)
  | Method.Clear, [AValidation] => Some (Clear v, None)
  | Method.HasErrors, [AValidation] => Some (v, None)
  | Method.ErrorMap, [AValidation] => Some (v, None)
  | _, _ => None
  end.

(** [f[name].Call(in)]. *)
Definition reflectCall (fn : RegFunc) (v : Validation) (args : list Arg)
  : option (Validation * option Result) :=
  match fn with
  | FMethod m => invoke m v args
  | FCustom f =>
      match args with
      | [AValidation; AObj o; AStr key] =>
          match f v o key with
          | Some v' => Some (v', None)
          | None => None
          end
      | _ => None
      end
  end.

(** [func (f Funcs) Call(name string, params ...interface{})
    (result []reflect.Value, err error)]: the context after the call, and
    the [*Result] among the results or the error. *)
Definition Call (f : Funcs) (name : string) (v : Validation) (params : list Arg)
  : Validation * outcome (option Result) :=
  match f !! name with
  | None => (v, Fail (DoesNotExist name))
  | Some fn =>
      if negb (Z.of_nat (length params) =? NumIn fn)%Z
      then (v, Fail ParamsNotAdapted)
      else match reflectCall fn v params with
           | Some (v', result) => (v', Ret result)
           | None => (v, recover (Panic "reflect: Call"))
           end
  end.

(** [func mergeParam(v *Validation, obj interface{}, errDesc string,
    params []interface{}) []interface{}]. *)
Definition mergeParam (obj : Obj) (errDesc : string) (params : list Arg)
  : list Arg :=
  ([AValidation; AObj obj] ++ params) ++ [AStr errDesc].

(** ** The tag compiler *)

(** [reflect.StructField]: the field name and its tag, read with
    [Tag.Get]. *)
Record StructField : Type := mkStructField {
  StructField_Name : string;
  StructField_Tag : gmap string string
}.

Definition Tag_Get (f : StructField) (key : string) : string :=
  default "" (StructField_Tag f !! key).

(** [func parseParam(t reflect.Type, s string) (i interface{}, err error)]. *)
Definition parseParam (t : Kind) (s : string) : outcome Arg :=
  match t with
  | KInt =>
      match strconv.Atoi s with
      | Some i => Ret (AInt i)
      | None => Fail (AtoiError s)
      end
  | KString => Ret (AStr s)
  | KPtr elem =>
      if negb (String.eqb elem "regexp.Regexp") then Fail (DoesNotSupport elem)
      else match Compile s with
           | inl r => Ret (ARegexp r)
           | inr msg => Fail (RegexpError msg)
           end
  | _ => Fail (DoesNotSupport (Kind_String t))
  end.

(** The loop of [trim] from index [i] on. *)
Fixpoint trimLoop (fn : RegFunc) (i : nat) (s : list string) : outcome (list Arg) :=
  match s with
  | [] => Ret []
  | si :: rest =>
      match funcIn fn !! (i + 2)%nat with
      | None => Panic "reflect: Func index out of bounds"
      | Some t =>
          let* param := parseParam t (strings.TrimSpace si) in
          let* ts := trimLoop fn (S i) rest in
          Ret (param :: ts)
      end
  end.

(** [func trim(name, key string, s []string) (ts []interface{}, err error)]. *)
Definition trim (funcs : Funcs) (name key : string) (s : list string)
  : outcome (list Arg) :=
  match funcs !! name with
  | None => Fail (DoesntExsits name)
  | Some fn =>
      let* ts := trimLoop fn O s in
      Ret (ts ++ [AStr key])
  end.

(** [func numIn(name string) (num int, err error)]. *)
Definition numIn (funcs : Funcs) (name : string) : outcome Z :=
  match funcs !! name with
  | None => Fail (DoesntExsits name)
  | Some fn => Ret (NumIn fn - 4)
  end.

(** [func parseFunc(vfunc, errDesc, key string) (v ValidFunc, err error)]. *)
Definition parseFunc (funcs : Funcs) (vfunc errDesc key : string)
  : outcome ValidFunc :=
  recover (
    let vfunc := strings.TrimSpace vfunc in
    let start := strings.Index vfunc "(" in
    if (start =? -1)%Z then
      let* num := numIn funcs vfunc in
      if negb (num =? 0)%Z then Fail (RequireParameters vfunc num)
      else Ret (mkValidFunc vfunc errDesc [AStr (key +:+ "." +:+ vfunc)])
    else
      let end_ := strings.Index vfunc ")" in
      if (end_ =? -1)%Z then Fail InvalidValidFunction
      else
        let* head := sliced (strings.sliceTo vfunc start) in
        let name := strings.TrimSpace head in
        let* num := numIn funcs name in
        let* inner := sliced (strings.slice vfunc (start + 1) end_) in
        let params := strings.Split inner "," in
        if negb (num =? Z.of_nat (length params))%Z
        then Fail (RequireParameters name num)
        else
          let* tParams := trim funcs name (key +:+ "." +:+ name) params in
          Ret (mkValidFunc name errDesc tParams)).

(** The loop of [getRegFuncs] over the clauses of the whole tag, which
    picks the description of the [Match] clause and rebuilds the others in
    the buffer. *)
Fixpoint regDescLoop (errDescTags : list string) (idx : nat) (tags : list string)
    (regDescTag buffer : string) : string * string :=
  match tags with
  | [] => (regDescTag, buffer)
  | aTag :: rest =>
      if (0 <=? strings.Index (strings.TrimSpace aTag) "Match(/")%Z then
        let regDescTag :=
          if (idx <? length errDescTags)%nat then default "" (errDescTags !! idx)
          else regDescTag in
        regDescLoop errDescTags (S idx) rest regDescTag buffer
      else
        let buffer :=
          if ((0 <? idx)%nat && (idx <? length errDescTags)%nat)%bool
          then buffer +:+ ";" else buffer in
        let buffer :=
          if (idx <? length errDescTags)%nat
          then buffer +:+ default "" (errDescTags !! idx) else buffer in
        regDescLoop errDescTags (S idx) rest regDescTag buffer
  end.

(** [func getRegFuncs(tag, errDescTag, key string)
    (vfs []ValidFunc, newTag string, newErrDescTag string, err error)]. *)
Definition getRegFuncs (tag errDescTag key : string)
  : outcome (list ValidFunc * string * string) :=
  let index := strings.Index tag "Match(/" in
  if (index =? -1)%Z then Ret ([], tag, errDescTag)
  else
    let end_ := strings.LastIndex tag "/)" in
    if (end_ <? index)%Z then Fail InvalidMatchFunction
    else
      let* pattern :=
        sliced (strings.slice tag (index + Z.of_nat (String.length "Match(/")) end_) in
      match Compile pattern with
      | inr msg => Fail (RegexpError msg)
      | inl reg =>
          let '(regDescTag, newErrDescTag) :=
            if (0 <? String.length errDescTag)%nat then
              if (strings.Index errDescTag ";" <? 0)%Z then (errDescTag, "")
              else
                regDescLoop (strings.Split errDescTag ";") O
                  (strings.Split tag ";") "" ""
            else ("", "") in
          let vfs := [mkValidFunc "Match" regDescTag
                        [ARegexp reg; AStr (key +:+ ".Match")]] in
          let* before := sliced (strings.sliceTo tag index) in
          let* after :=
            sliced (strings.sliceFrom tag (end_ + Z.of_nat (String.length "/)"))) in
          Ret (vfs, strings.TrimSpace before +:+ strings.TrimSpace after,
               newErrDescTag)
      end.

(** The loop of [getValidFuncs] over the clauses from index [idx] on. *)
Fixpoint validFuncsLoop (funcs : Funcs) (key : string) (isFsArray : bool)
    (errDescTag : string) (fsDesc : list string) (idx : nat) (fs : list string)
    (vfs : list ValidFunc) : outcome (list ValidFunc) :=
  match fs with
  | [] => Ret vfs
  | vfunc :: rest =>
      if (String.length vfunc =? 0)%nat
      then validFuncsLoop funcs key isFsArray errDescTag fsDesc (S idx) rest vfs
      else
        let errDesc :=
          if negb isFsArray then errDescTag
          else if (idx <? length fsDesc)%nat then default "" (fsDesc !! idx)
               else "" in
        let* vf := parseFunc funcs vfunc errDesc key in
        validFuncsLoop funcs key isFsArray errDescTag fsDesc (S idx) rest
          (vfs ++ [vf])
  end.

(** [func getValidFuncs(f reflect.StructField) (vfs []ValidFunc, err error)]. *)
Definition getValidFuncs (funcs : Funcs) (f : StructField)
  : outcome (list ValidFunc) :=
  let tag := strings.TrimSpace (Tag_Get f ValidTag) in
  if (String.length tag =? 0)%nat then Ret []
  else
    let errDescTag := strings.TrimSpace (Tag_Get f ValidErrDescTag) in
    let* (vfs, tag, errDescTag) :=
      getRegFuncs tag errDescTag (StructField_Name f) in
    let fs := strings.Split tag ";" in
    let isFsArray := (0 <=? strings.Index errDescTag ";")%Z in
    let fsDesc := if isFsArray then strings.Split errDescTag ";" else [] in
    validFuncsLoop funcs (StructField_Name f) isFsArray errDescTag fsDesc O fs vfs.

(** ** The execution engine: [Valid] *)

(** The value handed to [Valid]: a struct, a pointer to a struct, or
    anything else.  A struct is its fields in declaration order, each with
    its current value. *)
Inductive Input : Type :=
| IStruct (fields : list (StructField * Obj))
| IStructPtr (fields : list (StructField * Obj))
| IOther.

(** A run of the engine: the rules invoked, in the order of their
    invocation, the context afterwards, and what the call returned
    ([Ret tt] is the [nil] error). *)
Record Run : Type := mkRun {
  invoked : list ValidFunc;
  after : Validation;
  returned : outcome unit
}.

(** The inner loop of [Valid], over the rules of one field.  [Ret tt]
    says the loop ran to its end. *)
Fixpoint validRules (funcs : Funcs) (v : Validation) (obj : Obj)
    (vfs : list ValidFunc) : Run :=
  match vfs with
  | [] => mkRun [] v (Ret tt)
  | vf :: rest =>
      match Call funcs (ValidFunc_Name vf) v
              (mergeParam obj (ValidFunc_ErrMsg vf) (ValidFunc_Params vf)) with
      | (v', Fail e) => mkRun [vf] v' (Fail e)
      | (v', Panic p) => mkRun [vf] v' (Panic p)
      | (v', Ret _) =>
          if HasErrors v'
          then mkRun [vf] v'
                 (Fail (ErrorsNew (Message (deref v' (default O (head (Errors v')))))))
          else
            let r := validRules funcs v' obj rest in
            mkRun (vf :: invoked r) (after r) (returned r)
      end
  end.

(** The outer loop of [Valid], over the fields. *)
Fixpoint validFields (funcs : Funcs) (v : Validation)
    (fields : list (StructField * Obj)) : Run :=
  match fields with
  | [] => mkRun [] v (Ret tt)
  | (f, obj) :: rest =>
      match getValidFuncs funcs f with
      | Fail e => mkRun [] v (Fail e)
      | Panic p => mkRun [] v (Panic p)
      | Ret vfs =>
          let r := validRules funcs v obj vfs in
          match returned r with
          | Ret _ =>
              let r' := validFields funcs (after r) rest in
              mkRun (invoked r ++ invoked r') (after r') (returned r')
          | _ => r
          end
      end
  end.

(** [func (v *Validation) Valid(obj interface{}) (err error)]. *)
Definition Valid (funcs : Funcs) (v : Validation) (obj : Input) : Run :=
  match obj with
  | IStruct fields | IStructPtr fields => validFields funcs v fields
  | IOther => mkRun [] v (Fail MustBeStruct)
  end.

End Engine.

(** ** A predicate library to run the engine on

    Modelled from the spec: the predicate bodies and package [regexp] are
    not among the sources.  This instance follows the contracts of the
    spec's Predicate Library on two kinds of field values, strings and
    integers, and the literal fragment of [regexp]: a pattern made of ASCII
    letters and digits compiles and matches the texts containing it, any
    other pattern is refused.  The predicates of the fixed patterns, which
    are in the missing file, accept every string; there are no message
    templates.  It serves the concrete runs below; the theorems hold for
    every [Library]. *)

Module Demo.

Inductive value : Type :=
| VString (s : string)
| VInt (i : Z)
| VNil.

Definition isDigit (c : ascii) : bool :=
  let n := nat_of_ascii c in ((48 <=? n)%nat && (n <=? 57)%nat)%bool.

Definition isLetter (c : ascii) : bool :=
  let n := nat_of_ascii c in
  (((65 <=? n)%nat && (n <=? 90)%nat) || ((97 <=? n)%nat && (n <=? 122)%nat))%bool.

Definition isDash (c : ascii) : bool :=
  (Ascii.eqb c "_"%char || Ascii.eqb c "-"%char)%bool.

Definition all (p : ascii -> bool) (s : string) : bool :=
  forallb p (list_ascii_of_string s).

Definition compile (pattern : string) : string + string :=
  if all (fun c => (isDigit c || isLetter c)%bool) pattern then inl pattern
  else inr ("error parsing regexp: " +:+ pattern).

Definition matchString (re s : string) : bool :=
  (0 <=? strings.Index s re)%Z.

Definition onString (p : string -> bool) (obj : value) : bool :=
  match obj with
  | VString s => p s
  | _ => false
  end.

Definition onInt (p : Z -> bool) (obj : value) : bool :=
  match obj with
  | VInt i => p i
  | _ => false
  end.

Definition size (s : string) : Z := Z.of_nat (String.length s).

Definition isSatisfied (chk : Validator string) (obj : value) : bool :=
  match chk with
  | Required _ =>
      match obj with
      | VString s => negb (String.eqb s "")
      | VInt i => negb (i =? 0)%Z
      | VNil => false
      end
  | Min n _ => onInt (fun i => (n <=? i)%Z) obj
  | Max n _ => onInt (fun i => (i <=? n)%Z) obj
  | Range lo hi _ => onInt (fun i => ((lo <=? i)%Z && (i <=? hi)%Z)%bool) obj
  | MinSize n _ => onString (fun s => (n <=? size s)%Z) obj
  | MaxSize n _ => onString (fun s => (size s <=? n)%Z) obj
  | Length n _ => onString (fun s => (size s =? n)%Z) obj
  | Alpha _ => onString (all isLetter) obj
  | Numeric _ => onString (all isDigit) obj
  | AlphaNumeric _ => onString (all (fun c => (isDigit c || isLetter c)%bool)) obj
  | AlphaDash _ =>
      onString (all (fun c => (isDigit c || isLetter c || isDash c)%bool)) obj
  | Match re _ => onString (matchString re) obj
  | NoMatch re _ => onString (fun s => negb (matchString re s)) obj
  | Email _ | IP _ | Base64 _ | Mobile _ | Tel _ | Phone _ | ZipCode _ =>
      onString (fun _ => true) obj
  end.

Definition ruleName (chk : Validator string) : string :=
  match chk with
  | Required _ => "Required" | Min _ _ => "Min" | Max _ _ => "Max"
  | Range _ _ _ => "Range" | MinSize _ _ => "MinSize" | MaxSize _ _ => "MaxSize"
  | Length _ _ => "Length" | Alpha _ => "Alpha" | Numeric _ => "Numeric"
  | AlphaNumeric _ => "AlphaNumeric" | Match _ _ => "Match"
  | NoMatch _ _ => "NoMatch" | AlphaDash _ => "AlphaDash" | Email _ => "Email"
  | IP _ => "IP" | Base64 _ => "Base64" | Mobile _ => "Mobile" | Tel _ => "Tel"
  | Phone _ => "Phone" | ZipCode _ => "ZipCode"
  end.

Definition defaultMessage (chk : Validator string) : string :=
  "default message of " +:+ ruleName chk.

Definition getLimitValue (chk : Validator string) : option (list Z) :=
  match chk with
  | Min n _ | Max n _ | MinSize n _ | MaxSize n _ | Length n _ => Some [n]
  | Range lo hi _ => Some [lo; hi]
  | _ => None
  end.

Definition messageTmpls : gmap string string := ∅.

Definition library : Library :=
  {| Obj := value;
     Regexp := string;
     Compile := compile;
     Limit := list Z;
     IsSatisfied := isSatisfied;
     DefaultMessage := defaultMessage;
     GetLimitValue := getLimitValue;
     MessageTmpls := messageTmpls;
     FmtArg := string;
     Sprintf := fun format args => fold_left String.append args format |}.

(** A field with its two tags. *)
Definition field (name valid vdesc : string) : StructField :=
  mkStructField name (<[ValidTag := valid]> (<[ValidErrDescTag := vdesc]> ∅)).

(** The registry at start-up and a fresh context, for this library. *)
Definition funcs : gmap string (@RegFunc library) := @init library.
Definition fresh : @Validation library := @newValidation library.

(** The names and descriptions of compiled rules. *)
Definition names (vfs : list (@ValidFunc library)) : list string :=
  map (@ValidFunc_Name library) vfs.
Definition descs (vfs : list (@ValidFunc library)) : list string :=
  map (@ValidFunc_ErrMsg library) vfs.

(** A form with two annotated fields, the second of which fails its first
    rule; a field whose annotation does not compile, to put after them;
    and the rules the two fields compile to. *)
Definition form : list (StructField * @Obj library) :=
  [(field "Name" "Required" "", VString "x");
   (field "Amount" "Required;Range(1, 140)"
      "amount required;amount out of range", VInt 0)].

Definition later : list (StructField * @Obj library) :=
  [(field "Memo" "Bogus(" "", VNil)].

Definition amountRequired : @ValidFunc library :=
  @mkValidFunc library "Required" "amount required"
    [@AStr library "Amount.Required"].
Definition amountRange : @ValidFunc library :=
  @mkValidFunc library "Range" "amount out of range"
    [@AInt library 1; @AInt library 140; @AStr library "Amount.Range"].


(** A context that already holds an error. *)
Definition stale : @Validation library :=
  fst (@SetError library fresh "Other" "stale").

End Demo.

(** ** Notions the statements use *)

Section Notions.

Context {L : Library}.

(** The validator a method builds from the compiled parameters of a rule
    (the arguments between the field value and the description). *)
Definition checker (m : Method.t) (params : list Arg) : option (Validator Regexp) :=
  match m, params with
  | Method.Required, [AStr k] => Some (Required k)
  | Method.Min, [AInt n; AStr k] => Some (Min n k)
  | Method.Max, [AInt n; AStr k] => Some (Max n k)
  | Method.Range, [AInt lo; AInt hi; AStr k] => Some (Range lo hi k)
  | Method.MinSize, [AInt n; AStr k] => Some (MinSize n k)
  | Method.MaxSize, [AInt n; AStr k] => Some (MaxSize n k)
  | Method.Length, [AInt n; AStr k] => Some (Length n k)
  | Method.Alpha, [AStr k] => Some (Alpha k)
  | Method.Numeric, [AStr k] => Some (Numeric k)
  | Method.AlphaNumeric, [AStr k] => Some (AlphaNumeric k)
  | Method.Match, [ARegexp r; AStr k] => Some (Match r k)
  | Method.NoMatch, [ARegexp r; AStr k] => Some (NoMatch r k)
  | Method.AlphaDash, [AStr k] => Some (AlphaDash k)
  | Method.Email, [AStr k] => Some (Email k)
  | Method.IP, [AStr k] => Some (IP k)
  | Method.Base64, [AStr k] => Some (Base64 k)
  | Method.Mobile, [AStr k] => Some (Mobile k)
  | Method.Tel, [AStr k] => Some (Tel k)
  | Method.Phone, [AStr k] => Some (Phone k)
  | Method.ZipCode, [AStr k] => Some (ZipCode k)
  | _, _ => None
  end.

(** The predicate of a compiled rule: the validator its registered method
    builds. *)
Definition checkerOf (funcs : gmap string RegFunc) (vf : ValidFunc)
  : option (Validator Regexp) :=
  match funcs !! ValidFunc_Name vf with
  | Some (FMethod m) => checker m (ValidFunc_Params vf)
  | _ => None
  end.


(** The message of the error a failing rule records. *)
Definition failureMessage (chk : Validator Regexp) (errDesc : string) : string :=
  if String.eqb (strings.TrimSpace errDesc) "" then DefaultMessage chk else errDesc.



(** A compiled rule of the field named [key]: its method is registered
    and builds a validator whose key is ["<key>.<rule name>"]. *)
Definition wellCompiled (funcs : gmap string RegFunc) (key : string)
    (vf : ValidFunc) : Prop :=
  exists m chk,
    funcs !! ValidFunc_Name vf = Some (FMethod m)
    /\ checker m (ValidFunc_Params vf) = Some chk
    /\ GetKey chk = key +:+ "." +:+ ValidFunc_Name vf.


(** The names [unFuncs] holds. *)
Definition reservedNames : list string :=
  ["Clear"; "HasErrors"; "ErrorMap"; "Error"; "apply"; "Check"; "Valid"; "NoMatch"].



(** The descriptions [getRegFuncs] computes: the one of the [Match] rule
    and the ones left to the other clauses. *)
Definition regDescriptions (tag errDescTag : string) : string * string :=
  if (0 <? String.length errDescTag)%nat then
    if (strings.Index errDescTag ";" <? 0)%Z then (errDescTag, "")
    else regDescLoop (strings.Split errDescTag ";") O (strings.Split tag ";") "" ""
  else ("", "").

(** The methods [init] registers: the validators and [SetError]. *)
Definition registered : list Method.t :=
  [Method.Alpha; Method.AlphaDash; Method.AlphaNumeric; Method.Base64;
   Method.Email; Method.IP; Method.Length; Method.Match; Method.Max;
   Method.MaxSize; Method.Min; Method.MinSize; Method.Mobile; Method.Numeric;
   Method.Phone; Method.Range; Method.Required; Method.SetError; Method.Tel;
   Method.ZipCode].

(** A compiled argument has the kind of the parameter it is for. *)
Definition hasKind (k : Kind) (a : Arg) : bool :=
  match k, a with
  | KInt, AInt _ => true
  | KString, AStr _ => true
  | KPtr elem, ARegexp _ => String.eqb elem "regexp.Regexp"
  | _, _ => false
  end.

(** The field has no rule to compile: its [valid] tag is empty or
    white space. *)
Definition unannotated (f : StructField) : bool :=
  (String.length (strings.TrimSpace (Tag_Get f ValidTag)) =? 0)%nat.

(** The fields [Valid] walks over; none for a value that is no struct. *)
Definition fieldsOf (obj : Input) : list (StructField * Obj) :=
  match obj with
  | IStruct fields | IStructPtr fields => fields
  | IOther => []
  end.

(** The context [v'] holds what [v] held and possibly more: the store
    and the error sequence are extended at their ends, and no entry of
    the map is dropped or redirected. *)
Definition grows (v v' : Validation) : Prop :=
  heap v `prefix_of` heap v'
  /\ Errors v `prefix_of` Errors v'
  /\ forall f a, mapGet (ErrorsMap v) f = Some a ->
                 mapGet (ErrorsMap v') f = Some a.

(** The registry is sound: no reserved name is registered, and a method
    is registered only under its own name and only if it is one of
    [registered]. *)
Definition sound (funcs : gmap string RegFunc) : Prop :=
  (forall name, name ∈ reservedNames -> funcs !! name = None)
  /\ forall name m, funcs !! name = Some (FMethod m) ->
                   m ∈ registered /\ Method.Name m = name.

(** The earliest error of the sequence whose [Field] is [f]. *)
Definition earliest (v : Validation) (f : string) : option addr :=
  List.find (fun a => String.eqb (Field (deref v a)) f) (Errors v).

(** The first-wins invariant of a context: the pointers of [Errors] are
    allocated, and the map holds for each field exactly the earliest error
    recorded for it. *)
Definition firstWins (v : Validation) : Prop :=
  Forall (fun a => (a < length (heap v))%nat) (Errors v)
  /\ forall f, mapGet (ErrorsMap v) f = earliest v f.

(** The name of a clause as [parseFunc] reads it: the trimmed clause, or
    its trimmed text before the first parenthesis. *)
Definition clauseName (clause : string) : string :=
  let c := strings.TrimSpace clause in
  let start := strings.Index c "(" in
  if (start =? -1)%Z then c
  else strings.TrimSpace (default "" (strings.sliceTo c start)).

(** The non-empty clauses of an annotation, in the order they are
    written. *)
Definition clauses (tag : string) : list string :=
  List.filter (fun c => negb (String.length c =? 0)%nat) (strings.Split tag ";").

(** The description the clause at index [idx] is given by
    [getValidFuncs]. *)
Definition descriptionAt (errDescTag : string) (idx : nat) : string :=
  if (0 <=? strings.Index errDescTag ";")%Z
  then default "" (strings.Split errDescTag ";" !! idx)
  else errDescTag.

(** The descriptions of the non-empty clauses of [fs], the first of which
    has index [idx]. *)
Fixpoint descriptionsFrom (errDescTag : string) (idx : nat) (fs : list string)
  : list string :=
  match fs with
  | [] => []
  | c :: rest =>
      if (String.length c =? 0)%nat then descriptionsFrom errDescTag (S idx) rest
      else descriptionAt errDescTag idx :: descriptionsFrom errDescTag (S idx) rest
  end.

(** The number of ['.'] in a key. *)
Fixpoint dots (key : string) : nat :=
  match key with
  | EmptyString => O
  | String c rest => if Ascii.eqb "."%char c then S (dots rest) else dots rest
  end.

End Notions.

(** *** The statements of the spec, in its words *)

Module Spec.

(** The reserved names as the spec lists them: [Clear], [HasErrors],
    [ErrorMap], [Error], [Valid] and the internal apply/check helpers. *)
Definition reserved : list string :=
  ["Clear"; "HasErrors"; "ErrorMap"; "Error"; "Valid"; "apply"; "Check"].


(** The key split on its first ['.']: the text before it and the text
    after it. *)
Fixpoint field (key : string) : string :=
  match key with
  | EmptyString => EmptyString
  | String c rest => if Ascii.eqb "."%char c then EmptyString else String c (field rest)
  end.

Fixpoint name (key : string) : string :=
  match key with
  | EmptyString => EmptyString
  | String c rest => if Ascii.eqb "."%char c then rest else name rest
  end.

End Spec.

(** ** The string functions on the examples of their documentation *)

Section StringChecks.

Example Index_chicken : strings.Index "chicken" "ken" = 4%Z.
Proof. reflexivity. Qed.

Example Index_absent : strings.Index "chicken" "dmr" = (-1)%Z.
Proof. reflexivity. Qed.

Example LastIndex_gopher : strings.LastIndex "go gopher" "go" = 3%Z.
Proof. reflexivity. Qed.

Example LastIndex_absent : strings.LastIndex "go gopher" "rodent" = (-1)%Z.
Proof. reflexivity. Qed.

Example Split_commas : strings.Split "a,b,c" "," = ["a"; "b"; "c"].
Proof. reflexivity. Qed.

Example Split_words :
  strings.Split "a man a plan a canal panama" "a " =
  [""; "man "; "plan "; "canal panama"].
Proof. reflexivity. Qed.

Example Split_empty : strings.Split "" ";" = [""].
Proof. reflexivity. Qed.

Example Split_trailing : strings.Split "Required;" ";" = ["Required"; ""].
Proof. reflexivity. Qed.

Example TrimSpace_gophers :
  strings.TrimSpace (String (strings.byte 32) (String (strings.byte 9)
     (String (strings.byte 10) " Hello, Gophers "))
     +:+ String (strings.byte 10) (String (strings.byte 9)
           (String (strings.byte 13) (String (strings.byte 10) ""))))
  = "Hello, Gophers".
Proof. reflexivity. Qed.

(** U+00A0, the no-break space, is encoded on two bytes. *)
Example TrimSpace_nbsp :
  strings.TrimSpace (String (strings.byte 194) (String (strings.byte 160) "x")
                     +:+ String (strings.byte 194) (String (strings.byte 160) ""))
  = "x".
Proof. reflexivity. Qed.

Example slice_middle : strings.slice "Range(1, 140)" 6 12 = Some "1, 140".
Proof. reflexivity. Qed.

Example slice_backwards : strings.slice "Match(/)" 7 6 = None.
Proof. reflexivity. Qed.

Example Atoi_140 : strconv.Atoi "140" = Some 140%Z.
Proof. reflexivity. Qed.

Example Atoi_negative : strconv.Atoi "-7" = Some (-7)%Z.
Proof. reflexivity. Qed.

Example Atoi_spaces : strconv.Atoi "1 40" = None.
Proof. reflexivity. Qed.

Example Atoi_range : strconv.Atoi "9223372036854775808" = None.
Proof. reflexivity. Qed.

End StringChecks.

(** ** Properties of the error model *)

Section ErrorModel.

Context {L : Library}.

Lemma deref_alloc_old (v : Validation) (e : Error) (a : addr) :
  (a < length (heap v))%nat -> deref (fst (alloc v e)) a = deref v a.
Proof.
  intros Ha. unfold deref, alloc; simpl. rewrite lookup_app_l; auto.
Qed.

Lemma deref_alloc_new (v : Validation) (e : Error) :
  deref (fst (alloc v e)) (snd (alloc v e)) = e.
Proof.
  unfold deref, alloc; simpl.
  rewrite lookup_app_r by lia. now rewrite Nat.sub_diag.
Qed.



Lemma find_snoc {A : Type} (p : A -> bool) (l : list A) (x : A) :
  List.find p (l ++ [x]) =
  match List.find p l with
  | Some y => Some y
  | None => if p x then Some x else None
  end.
Proof.
  induction l as [|y l IH]; simpl; [reflexivity|].
  destruct (p y); [reflexivity | exact IH].
Qed.

Lemma find_ext_in {A : Type} (p q : A -> bool) (l : list A) :
  Forall (fun x => p x = q x) l -> List.find p l = List.find q l.
Proof.
  induction 1 as [|x l Hx _ IH]; simpl; [reflexivity|].
  rewrite Hx, IH. reflexivity.
Qed.

Lemma earliest_setError (v : Validation) (err : addr) (f : string) :
  earliest (setError v err) f =
  match earliest v f with
  | Some a => Some a
  | None => if String.eqb (Field (deref v err)) f then Some err else None
  end.
Proof.
  unfold earliest.
  change (Errors (setError v err)) with (Errors v ++ [err]).
  rewrite find_snoc. reflexivity.
Qed.

Lemma mapGet_setError (v : Validation) (err : addr) (f : string) :
  mapGet (ErrorsMap (setError v err)) f =
  match mapGet (ErrorsMap v) f with
  | Some a => Some a
  | None =>
      if String.eqb (Field (deref v err)) f
      then match mapGet (ErrorsMap v) (Field (deref v err)) with
           | Some a => Some a
           | None => Some err
           end
      else None
  end.
Proof.
  unfold setError; cbn [ErrorsMap mapGet].
  destruct (ErrorsMap v) as [m|]; cbn [mapGet].
  - destruct (m !! Field (deref v err)) as [a|] eqn:Hm.
    + destruct (m !! f) eqn:Hf; [reflexivity|].
      destruct (String.eqb_spec (Field (deref v err)) f) as [<-|]; congruence.
    + destruct (String.eqb_spec (Field (deref v err)) f) as [<-|Hne].
      * rewrite lookup_insert_eq, Hm. reflexivity.
      * rewrite lookup_insert_ne by exact Hne.
        destruct (m !! f); reflexivity.
  - rewrite lookup_empty.
    destruct (String.eqb_spec (Field (deref v err)) f) as [<-|Hne].
    + now rewrite lookup_insert_eq.
    + rewrite lookup_insert_ne by exact Hne. now rewrite lookup_empty.
Qed.

(** [setError] keeps the invariant, whatever error it is handed. *)
Lemma setError_firstWins (v : Validation) (err : addr) :
  (err < length (heap v))%nat -> firstWins v -> firstWins (setError v err).
Proof.
  intros Herr [Hwf Hmap]. split.
  - unfold setError; simpl. apply Forall_app; split; [exact Hwf|].
    constructor; [exact Herr | constructor].
  - intros f. rewrite earliest_setError, mapGet_setError.
    rewrite (Hmap f), (Hmap (Field (deref v err))).
    destruct (earliest v f) as [a|] eqn:He; [reflexivity|].
    destruct (String.eqb_spec (Field (deref v err)) f) as [Heq|]; [|reflexivity].
    rewrite Heq, He. reflexivity.
Qed.

(** Allocation keeps the invariant: the old pointers read as before. *)
Lemma alloc_firstWins (v : Validation) (e : Error) :
  firstWins v -> firstWins (fst (alloc v e)).
Proof.
  intros [Hwf Hmap]. split.
  - unfold alloc; simpl. rewrite length_app; simpl.
    eapply Forall_impl; [exact Hwf|]. simpl; intros; lia.
  - intros f. change (ErrorsMap (fst (alloc v e))) with (ErrorsMap v).
    rewrite Hmap. unfold earliest.
    change (Errors (fst (alloc v e))) with (Errors v).
    apply find_ext_in.
    eapply Forall_impl; [exact Hwf|]. cbv beta; intros a Ha.
    now rewrite deref_alloc_old.
Qed.

Lemma alloc_fresh (v : Validation) (e : Error) :
  (snd (alloc v e) < length (heap (fst (alloc v e))))%nat.
Proof. unfold alloc; simpl. rewrite length_app; simpl. lia. Qed.

Lemma newValidation_firstWins : firstWins newValidation.
Proof. split; [constructor | intros f; reflexivity]. Qed.

Lemma Clear_firstWins (v : Validation) : firstWins (Clear v).
Proof. split; [constructor | intros f; reflexivity]. Qed.

(** The shape of [apply] on a value that does not satisfy the validator. *)
Lemma apply_failure (v : Validation) (chk : Validator Regexp) (obj : Obj)
    (errDesc : string) :
  IsSatisfied chk obj = false ->
  exists e : Error,
    apply v chk obj errDesc =
      (setError (fst (alloc v e)) (snd (alloc v e)),
       {| Error' := Some (snd (alloc v e)); Ok := false |})
    /\ Message e = failureMessage chk errDesc
    /\ Key e = GetKey chk
    /\ (Field e, Name e) =
         match strings.Split (GetKey chk) "." with
         | [p0; p1] => (p0, p1)
         | _ => ("", GetKey chk)
         end.
Proof.
  intros Hsat. unfold apply. rewrite Hsat.
  destruct (match strings.Split (GetKey chk) "." with
            | [p0; p1] => (p0, p1)
            | _ => ("", GetKey chk)
            end) as [fld nm] eqn:Hparts.
  eexists. split; [reflexivity|]. simpl. auto.
Qed.

Lemma apply_success (v : Validation) (chk : Validator Regexp) (obj : Obj)
    (errDesc : string) :
  IsSatisfied chk obj = true ->
  apply v chk obj errDesc = (v, {| Error' := None; Ok := true |}).
Proof. intros Hsat. unfold apply. now rewrite Hsat. Qed.

End ErrorModel.

Section ErrorModelClaims.

Context {L : Library}.



End ErrorModelClaims.

(** ** Properties of the compiler *)

Section Compiler.

Context {L : Library}.

Lemma recover_Ret {A : Type} (o : outcome A) (a : A) :
  recover o = Ret a -> o = Ret a.
Proof. destruct o; simpl; congruence. Qed.

Lemma sliced_Ret (o : option string) (s : string) :
  sliced o = Ret s -> o = Some s.
Proof. destruct o; simpl; congruence. Qed.

(** The parameters [trim] compiles for a method are the ones the method
    takes, and the key comes last. *)
Lemma trimLoop_checker (m : Method.t) (params : list string) (ts : list Arg)
    (k : string) :
  (NumIn (FMethod m) - 4)%Z = Z.of_nat (length params) ->
  trimLoop (FMethod m) O params = Ret ts ->
  exists chk, checker m (ts ++ [AStr k]) = Some chk /\ GetKey chk = k.
Proof.
  intros Hnum Hloop.
  destruct m; unfold NumIn in Hnum; cbn [funcIn Method.In length] in Hnum;
    destruct params as [|p1 [|p2 [|p3 params]]]; cbn [length] in Hnum; try lia;
    cbn in Hloop; unfold bind, parseParam in Hloop; cbn in Hloop;
    repeat match goal with
      | H : context [match ?x with _ => _ end] |- _ =>
          destruct x eqn:?; try discriminate
      | H : Ret _ = Ret _ |- _ => injection H as ?; subst
      end;
    eexists; split; reflexivity.
Qed.

(** What a clause that compiles compiles to. *)
Lemma parseFunc_Ret (funcs : gmap string RegFunc) (vfunc errDesc key : string)
    (vf : ValidFunc) :
  parseFunc funcs vfunc errDesc key = Ret vf ->
  ValidFunc_Name vf = clauseName vfunc
  /\ ValidFunc_ErrMsg vf = errDesc
  /\ exists m chk,
       funcs !! ValidFunc_Name vf = Some (FMethod m)
       /\ checker m (ValidFunc_Params vf) = Some chk
       /\ GetKey chk = key +:+ "." +:+ ValidFunc_Name vf.
Proof.
  unfold parseFunc, clauseName. intros H. apply recover_Ret in H.
  destruct (strings.Index (strings.TrimSpace vfunc) "(" =? -1)%Z eqn:Hstart.
  - unfold bind, numIn in H.
    destruct (funcs !! strings.TrimSpace vfunc) as [fn|] eqn:Hfn;
      [|discriminate H].
    destruct (Z.eqb_spec (NumIn fn - 4) 0) as [Hnum|]; [|discriminate H].
    injection H as <-. cbn [ValidFunc_Name ValidFunc_ErrMsg ValidFunc_Params].
    split; [reflexivity|]. split; [reflexivity|].
    destruct fn as [m|f]; [|cbv in Hnum; lia].
    destruct (trimLoop_checker m [] []
                (key +:+ "." +:+ strings.TrimSpace vfunc)) as (chk & Hchk & Hk);
      [exact Hnum | reflexivity |].
    exists m, chk. auto.
  - destruct (strings.Index (strings.TrimSpace vfunc) ")" =? -1)%Z;
      [discriminate H|].
    unfold bind in H.
    destruct (sliced (strings.sliceTo _ _)) as [head| |] eqn:Hhead;
      try discriminate H.
    apply sliced_Ret in Hhead. rewrite Hhead. cbn [default].
    unfold numIn in H.
    destruct (funcs !! strings.TrimSpace head) as [fn|] eqn:Hfn;
      [|discriminate H].
    destruct (sliced (strings.slice _ _ _)) as [inner| |]; try discriminate H.
    destruct (Z.eqb_spec (NumIn fn - 4)
                (Z.of_nat (length (strings.Split inner ",")))) as [Hnum|];
      [|discriminate H].
    cbn [negb] in H. unfold trim in H. rewrite Hfn in H. unfold bind in H.
    destruct (trimLoop fn O (strings.Split inner ",")) as [ts| |] eqn:Hts;
      try discriminate H.
    injection H as <-. cbn [ValidFunc_Name ValidFunc_ErrMsg ValidFunc_Params].
    split; [reflexivity|]. split; [reflexivity|].
    destruct fn as [m|f].
    + destruct (trimLoop_checker m _ ts
                  (key +:+ "." +:+ strings.TrimSpace head) Hnum Hts)
        as (chk & Hchk & Hk).
      exists m, chk. auto.
    + exfalso. unfold NumIn in Hnum. cbn [funcIn length] in Hnum. lia.
Qed.

Lemma descriptionAt_loop (errDescTag : string) (idx : nat) :
  let isFsArray := (0 <=? strings.Index errDescTag ";")%Z in
  let fsDesc := if isFsArray then strings.Split errDescTag ";" else [] in
  (if negb isFsArray then errDescTag
   else if (idx <? length fsDesc)%nat then default "" (fsDesc !! idx) else "")
  = descriptionAt errDescTag idx.
Proof.
  unfold descriptionAt. cbv zeta.
  destruct (0 <=? strings.Index errDescTag ";")%Z; cbn [negb]; [|reflexivity].
  destruct (Nat.ltb_spec idx (length (strings.Split errDescTag ";")));
    [reflexivity|].
  now rewrite lookup_ge_None_2.
Qed.

(** The loop of [getValidFuncs] appends, clause after clause, the rules
    of the non-empty clauses, each with the description of its index. *)
Lemma validFuncsLoop_Ret (funcs : gmap string RegFunc) (key errDescTag : string)
    (fs : list string) :
  forall (idx : nat) (vfs0 vfs : list ValidFunc),
    validFuncsLoop funcs key (0 <=? strings.Index errDescTag ";")%Z errDescTag
      (if (0 <=? strings.Index errDescTag ";")%Z
       then strings.Split errDescTag ";" else [])
      idx fs vfs0 = Ret vfs ->
    exists more,
      vfs = vfs0 ++ more
      /\ map ValidFunc_Name more =
           map clauseName
             (List.filter (fun c => negb (String.length c =? 0)%nat) fs)
      /\ map ValidFunc_ErrMsg more = descriptionsFrom errDescTag idx fs
      /\ Forall (wellCompiled funcs key) more.
Proof.
  induction fs as [|c fs IH]; intros idx vfs0 vfs H; cbn [validFuncsLoop] in H.
  - injection H as <-. exists []. rewrite app_nil_r. repeat split; constructor.
  - cbn [List.filter descriptionsFrom].
    destruct (String.length c =? 0)%nat eqn:Hc; cbn [negb].
    + apply IH in H. exact H.
    + rewrite (descriptionAt_loop errDescTag idx) in H.
      unfold bind in H.
      destruct (parseFunc funcs c _ key) as [vf| |] eqn:Hvf; try discriminate H.
      apply IH in H. destruct H as (more & -> & Hn & Hd & Hw).
      apply parseFunc_Ret in Hvf. destruct Hvf as (Hname & Hdesc & Hchk).
      exists (vf :: more). rewrite <- app_assoc. split; [reflexivity|].
      cbn [map]. rewrite Hn, Hd, Hname, Hdesc.
      repeat split. constructor; [exact Hchk | exact Hw].
Qed.

(** What [getRegFuncs] returns when it returns: nothing changed without a
    [Match(/] in the tag; otherwise the [Match] rule on the text between
    the first [Match(/] and the last [/)], and the tag without that span. *)
Lemma getRegFuncs_Ret (tag errDescTag key : string) (vfs : list ValidFunc)
    (newTag newErrDescTag : string) :
  getRegFuncs tag errDescTag key = Ret (vfs, newTag, newErrDescTag) ->
  (strings.Index tag "Match(/" = -1
   /\ vfs = [] /\ newTag = tag /\ newErrDescTag = errDescTag)
  \/ (strings.Index tag "Match(/" <> -1
      /\ exists pattern reg regDescTag before after,
           strings.slice tag (strings.Index tag "Match(/" + 7)
             (strings.LastIndex tag "/)") = Some pattern
           /\ Compile pattern = inl reg
           /\ vfs = [mkValidFunc "Match" regDescTag
                       [ARegexp reg; AStr (key +:+ ".Match")]]
           /\ strings.sliceTo tag (strings.Index tag "Match(/") = Some before
           /\ strings.sliceFrom tag (strings.LastIndex tag "/)" + 2) = Some after
           /\ newTag = strings.TrimSpace before +:+ strings.TrimSpace after).
Proof.
  unfold getRegFuncs. intros H.
  destruct (Z.eqb_spec (strings.Index tag "Match(/") (-1)) as [Hidx|Hidx].
  - left. injection H as <- <- <-. auto.
  - right. split; [exact Hidx|].
    destruct (strings.LastIndex tag "/)" <? strings.Index tag "Match(/")%Z;
      [discriminate H|].
    unfold bind in H. change (Z.of_nat (String.length "Match(/")) with 7%Z in H.
    change (Z.of_nat (String.length "/)")) with 2%Z in H.
    destruct (sliced (strings.slice tag _ _)) as [pattern| |] eqn:Hpat;
      try discriminate H.
    apply sliced_Ret in Hpat.
    destruct (Compile pattern) as [reg|msg] eqn:Hreg; [|discriminate H].
    destruct (if (0 <? String.length errDescTag)%nat then _ else _)
      as [regDescTag newDesc].
    destruct (sliced (strings.sliceTo tag _)) as [before| |] eqn:Hb;
      try discriminate H.
    destruct (sliced (strings.sliceFrom tag _)) as [after| |] eqn:Ha;
      try discriminate H.
    apply sliced_Ret in Hb, Ha. injection H as <- <- <-.
    exists pattern, reg, regDescTag, before, after. auto 10.
Qed.

End Compiler.

(** ** Properties of the engine *)

Section EngineProperties.

Context {L : Library}.







(** What an annotation that compiles compiles to: the extracted [Match]
    rule, if any, and then the rules of the clauses left. *)
Lemma getValidFuncs_Ret (funcs : gmap string RegFunc) (f : StructField)
    (vfs : list ValidFunc) :
  getValidFuncs funcs f = Ret vfs ->
  let tag := strings.TrimSpace (Tag_Get f ValidTag) in
  let errDescTag := strings.TrimSpace (Tag_Get f ValidErrDescTag) in
  exists vfs0 newTag newErrDescTag more,
    (String.length tag = O /\ vfs0 = [] /\ newTag = tag
     \/ getRegFuncs tag errDescTag (StructField_Name f)
        = Ret (vfs0, newTag, newErrDescTag))
    /\ vfs = vfs0 ++ more
    /\ map ValidFunc_Name more = map clauseName (clauses newTag)
    /\ (String.length tag <> O ->
        map ValidFunc_ErrMsg more =
          descriptionsFrom newErrDescTag O (strings.Split newTag ";"))
    /\ Forall (wellCompiled funcs (StructField_Name f)) more.
Proof.
  unfold getValidFuncs. cbv zeta. intros H.
  destruct (Nat.eqb_spec (String.length (strings.TrimSpace (Tag_Get f ValidTag))) O)
    as [Hlen|Hlen].
  - injection H as <-.
    exists [], (strings.TrimSpace (Tag_Get f ValidTag)), "", [].
    split; [left; auto|]. split; [reflexivity|].
    destruct (strings.TrimSpace (Tag_Get f ValidTag)); [|discriminate Hlen].
    split; [reflexivity|]. split; [intros Hne; now elim Hne | constructor].
  - unfold bind in H.
    destruct (getRegFuncs _ _ _) as [[[vfs0 newTag] newDesc]| |] eqn:Hreg;
      try discriminate H.
    apply validFuncsLoop_Ret in H. destruct H as (more & -> & Hn & Hd & Hw).
    exists vfs0, newTag, newDesc, more. unfold clauses. auto 10.
Qed.

(** With [Match] registered as the method it is at start-up, every rule
    of an annotation that compiles has its predicate, keyed
    ["<field>.<rule>"]. *)
Lemma getValidFuncs_wellCompiled (funcs : gmap string RegFunc) (f : StructField)
    (vfs : list ValidFunc) :
  funcs !! "Match" = Some (FMethod Method.Match) ->
  getValidFuncs funcs f = Ret vfs ->
  Forall (wellCompiled funcs (StructField_Name f)) vfs.
Proof.
  intros HMatch H. apply getValidFuncs_Ret in H. cbv zeta in H.
  destruct H as (vfs0 & newTag & newDesc & more & Hreg & -> & _ & _ & Hw).
  apply Forall_app; split; [|exact Hw].
  destruct Hreg as [(_ & -> & _)|Hreg]; [constructor|].
  apply getRegFuncs_Ret in Hreg.
  destruct Hreg as [(_ & -> & _)|(_ & pattern & reg & d & b & a & _ & _ & -> & _)];
    constructor; [|constructor].
  exists Method.Match, (Match reg (StructField_Name f +:+ ".Match")).
  cbn. split; [exact HMatch|]. split; reflexivity.
Qed.




(** The context after a failing rule on a context without errors. *)
Lemma apply_failure_fresh (v : Validation) (chk : Validator Regexp) (obj : Obj)
    (errDesc : string) :
  HasErrors v = false ->
  IsSatisfied chk obj = false ->
  let v' := fst (apply v chk obj errDesc) in
  HasErrors v' = true
  /\ Message (deref v' (default O (head (Errors v')))) = failureMessage chk errDesc.
Proof.
  intros Hv Hsat. cbv zeta.
  destruct (apply_failure v chk obj errDesc Hsat) as (e & -> & Hmsg & _).
  cbn [fst]. unfold HasErrors in *.
  destruct (Errors v) as [|a es] eqn:HE; [|discriminate Hv].
  unfold setError. cbn [Errors]. change (Errors (fst (alloc v e))) with (Errors v).
  rewrite HE. cbn [app head default length]. split; [reflexivity|].
  change (Message (deref (fst (alloc v e)) (snd (alloc v e))) =
          failureMessage chk errDesc).
  now rewrite deref_alloc_new.
Qed.


(** Without a [Match(/] in the annotation, the descriptions are given
    to the clauses by index: the whole description when it has no [";"],
    otherwise the piece at the index of the clause, empty when there is
    none; and the names follow the clauses. *)
Lemma getValidFuncs_without_Match (funcs : gmap string RegFunc) (f : StructField)
    (vfs : list ValidFunc) :
  getValidFuncs funcs f = Ret vfs ->
  let tag := strings.TrimSpace (Tag_Get f ValidTag) in
  let errDescTag := strings.TrimSpace (Tag_Get f ValidErrDescTag) in
  strings.Index tag "Match(/" = (-1)%Z ->
  map ValidFunc_Name vfs = map clauseName (clauses tag)
  /\ (String.length tag <> O ->
      map ValidFunc_ErrMsg vfs =
        descriptionsFrom errDescTag O (strings.Split tag ";")).
Proof.
  intros H tag errDescTag Hidx. apply getValidFuncs_Ret in H. cbv zeta in H.
  fold tag errDescTag in H.
  destruct H as (vfs0 & newTag & newDesc & more & Hreg & -> & Hn & Hd & _).
  destruct Hreg as [(Hlen & -> & ->)|Hreg].
  - split; [exact Hn|]. intros Hne. contradiction.
  - apply getRegFuncs_Ret in Hreg.
    destruct Hreg as [(_ & -> & -> & ->)|(Hne & _)]; [|contradiction].
    split; [exact Hn | exact Hd].
Qed.

End EngineProperties.

(** ** Splitting a key on its dots *)

Section Keys.

Lemma HasPrefix_empty (s : string) : strings.HasPrefix s "" = true.
Proof. destruct s; reflexivity. Qed.

Lemma Split_dot_cons (c : ascii) (s : string) :
  strings.Split (String c s) "." =
  if Ascii.eqb "."%char c then "" :: strings.Split s "."
  else match strings.Split s "." with
       | h :: t => String c h :: t
       | [] => [String c ""]
       end.
Proof.
  unfold strings.Split. cbn [strings.splitFrom strings.HasPrefix].
  destruct (Ascii.eqb "."%char c); [|reflexivity].
  now rewrite HasPrefix_empty.
Qed.

Lemma Split_dot_length (key : string) :
  length (strings.Split key ".") = S (dots key).
Proof.
  induction key as [|c s IH]; [reflexivity|].
  rewrite Split_dot_cons. cbn [dots].
  destruct (Ascii.eqb "."%char c); cbn [length]; [now rewrite IH|].
  destruct (strings.Split s "."); [discriminate IH | exact IH].
Qed.

Lemma Split_dot_none (key : string) :
  dots key = O -> strings.Split key "." = [key].
Proof.
  induction key as [|c s IH]; [reflexivity|].
  rewrite Split_dot_cons. cbn [dots].
  destruct (Ascii.eqb "."%char c); [discriminate|].
  intros H. now rewrite IH.
Qed.

(** A key with exactly one dot splits into the text before and the text
    after it. *)
Lemma Split_dot_one (key : string) :
  dots key = 1%nat -> strings.Split key "." = [Spec.field key; Spec.name key].
Proof.
  induction key as [|c s IH]; [discriminate|].
  rewrite Split_dot_cons. cbn [dots Spec.field Spec.name].
  destruct (Ascii.eqb "."%char c).
  - intros H. injection H as H. now rewrite Split_dot_none.
  - intros H. now rewrite IH.
Qed.

(** What [apply] makes of the parts of the key. *)
Lemma key_parts (key : string) :
  match strings.Split key "." with
  | [p0; p1] => (p0, p1)
  | _ => ("", key)
  end =
  if (dots key =? 1)%nat then (Spec.field key, Spec.name key) else ("", key).
Proof.
  destruct (Nat.eqb_spec (dots key) 1) as [H|H].
  - now rewrite Split_dot_one.
  - pose proof (Split_dot_length key) as Hlen.
    destruct (strings.Split key ".") as [|p0 [|p1 [|p2 ps]]]; try reflexivity.
    cbn in Hlen. lia.
Qed.

End Keys.

(** ** The claims on the engine *)

Section EngineClaims.

Context {L : Library}.




(** C8, as the code has it.  The error a failing rule application records
    has the validator's key as its [Key]; its [Field] and [Name] are the
    text before and the text after the ['.'] of the key when the key has
    exactly one ['.'], and otherwise, with no ['.'] or more than one,
    [Field] is empty and [Name] is the whole key.  The key of a rule
    compiled from an annotation is ["<field>.<rule name>"]. *)
Theorem error_identity :
  (forall (v : Validation) (chk : Validator Regexp) (obj : Obj) (errDesc : string),
      IsSatisfied chk obj = false ->
      exists a,
        Error' (snd (apply v chk obj errDesc)) = Some a
        /\ Key (deref (fst (apply v chk obj errDesc)) a) = GetKey chk
        /\ (Field (deref (fst (apply v chk obj errDesc)) a),
            Name (deref (fst (apply v chk obj errDesc)) a)) =
           if (dots (GetKey chk) =? 1)%nat
           then (Spec.field (GetKey chk), Spec.name (GetKey chk))
           else ("", GetKey chk))
  /\ (forall (funcs : gmap string RegFunc) (f : StructField) (vfs : list ValidFunc),
        funcs !! "Match" = Some (FMethod Method.Match) ->
        getValidFuncs funcs f = Ret vfs ->
        Forall (fun vf =>
                  exists chk,
                    checkerOf funcs vf = Some chk
                    /\ GetKey chk =
                         StructField_Name f +:+ "." +:+ ValidFunc_Name vf) vfs).
Proof.
  split.
  - intros v chk obj errDesc Hsat.
    destruct (apply_failure v chk obj errDesc Hsat) as (e & -> & _ & Hkey & Hparts).
    exists (snd (alloc v e)). cbn [fst snd]. split; [reflexivity|].
    change (deref (setError (fst (alloc v e)) (snd (alloc v e))) (snd (alloc v e)))
      with (deref (fst (alloc v e)) (snd (alloc v e))).
    rewrite deref_alloc_new. split; [exact Hkey|].
    rewrite Hparts. apply key_parts.
  - intros funcs f vfs HMatch H.
    apply (getValidFuncs_wellCompiled funcs f vfs HMatch) in H.
    eapply Forall_impl; [exact H|].
    intros vf (m & chk & Hfn & Hchk & Hkey). exists chk.
    unfold checkerOf. rewrite Hfn. auto.
Qed.

End EngineClaims.

(** ** The claims on the registry *)

Section RegistryClaims.

Context {L : Library}.

Lemma isUnFunc_reserved (name : string) :
  isUnFunc name = bool_decide (name ∈ reservedNames).
Proof.
  unfold isUnFunc, unFuncs, reservedNames, list_to_map. cbn [foldr uncurry].
  repeat match goal with
    | |- context [<[?k := _]> _ !! name] =>
        destruct (decide (k = name)) as [<-|];
        [vm_compute; reflexivity | rewrite lookup_insert_ne by assumption]
    end.
  rewrite lookup_empty. cbn [default].
  symmetry. apply bool_decide_eq_false_2.
  rewrite !elem_of_cons, elem_of_nil. cbn [fst] in *. intuition congruence.
Qed.

(** The registry at start-up: a method is registered under its name
    unless the name is reserved. *)
Lemma init_lookup (m : Method.t) :
  init !! Method.Name m =
  if isUnFunc (Method.Name m) then None else Some (FMethod m).
Proof.
  destruct m;
    match goal with |- ?l = ?r => exact (@eq_refl _ r <: l = r) end.
Qed.

(** C3, as the code has it.  [AddCustomFunc] fails exactly on the names
    of [unFuncs]: [Clear], [HasErrors], [ErrorMap], [Error], [apply],
    [Check], [Valid] and also [NoMatch]; on the failure the registry is
    unchanged; for every other name, registered before or not, it succeeds
    and the name is bound to the new function while the other entries are
    unchanged. *)
Theorem AddCustomFunc_reserved (funcs : gmap string RegFunc) (name : string)
    (f : CustomFunc) :
  AddCustomFunc funcs name f =
    (if bool_decide (name ∈ reservedNames)
     then (funcs, Some (InvalidFunctionName name))
     else (<[name := FCustom f]> funcs, None))
  /\ forall other,
      fst (AddCustomFunc funcs name f) !! other =
        if bool_decide (name ∈ reservedNames) then funcs !! other
        else if decide (name = other) then Some (FCustom f)
             else funcs !! other.
Proof.
  unfold AddCustomFunc. rewrite isUnFunc_reserved.
  split; [reflexivity|]. intros other.
  destruct (bool_decide (name ∈ reservedNames)); cbn [fst]; [reflexivity|].
  apply lookup_insert.
Qed.




End RegistryClaims.

(** ** The extraction of [Match(/.../)] and the descriptions *)

Section MatchExtraction.

Context {L : Library}.

(** C5.  On the annotation [Match(/)] the first [Match(/] is at offset 0
    and the last [/)] at offset 6, inside it: the test [end < index] lets
    it pass and the slice [tag[7:6]] panics.  Nothing recovers the panic:
    it leaves [getRegFuncs], [getValidFuncs] and [Valid], for every
    description, registry, context and field value. *)
Theorem getRegFuncs_overlap_panics :
  strings.Index "Match(/)" "Match(/" = 0%Z
  /\ strings.LastIndex "Match(/)" "/)" = 6%Z
  /\ (forall errDescTag key : string,
        getRegFuncs "Match(/)" errDescTag key = Panic "slice bounds out of range")
  /\ (forall (funcs : gmap string RegFunc) (v : Validation)
        (name vdesc : string) (obj : Obj),
        Valid funcs v (IStruct [(Demo.field name "Match(/)" vdesc, obj)]) =
        mkRun [] v (Panic "slice bounds out of range")).
Proof.
  split; [reflexivity|]. split; [reflexivity|]. split.
  - intros errDescTag key. reflexivity.
  - intros funcs v name vdesc obj. reflexivity.
Qed.

(** The two refusals of [getRegFuncs]: the last [/)] before the first
    [Match(/], and a pattern [regexp.Compile] rejects. *)
Lemma getRegFuncs_Fail (tag errDescTag key : string) :
  strings.Index tag "Match(/" <> (-1)%Z ->
  ((strings.LastIndex tag "/)" < strings.Index tag "Match(/")%Z ->
   getRegFuncs tag errDescTag key = Fail InvalidMatchFunction)
  /\ (forall pattern msg,
        (strings.Index tag "Match(/" <= strings.LastIndex tag "/)")%Z ->
        strings.slice tag (strings.Index tag "Match(/" + 7)
          (strings.LastIndex tag "/)") = Some pattern ->
        Compile pattern = inr msg ->
        getRegFuncs tag errDescTag key = Fail (RegexpError msg)).
Proof.
  intros Hidx. unfold getRegFuncs.
  destruct (Z.eqb_spec (strings.Index tag "Match(/") (-1)) as [|_];
    [contradiction|].
  split.
  - intros Hlt.
    destruct (Z.ltb_spec (strings.LastIndex tag "/)") (strings.Index tag "Match(/"));
      [reflexivity | lia].
  - intros pattern msg Hle Hpat Hc.
    destruct (Z.ltb_spec (strings.LastIndex tag "/)") (strings.Index tag "Match(/"));
      [lia|].
    change (Z.of_nat (String.length "Match(/")) with 7%Z.
    rewrite Hpat. cbn [sliced bind]. now rewrite Hc.
Qed.

(** The annotation of the README, whose pattern holds a parenthesis and
    a semicolon: the pattern is the text up to the last [/)], the clause
    left is [Required;], and of the two descriptions the second goes to
    [Match] and the first stays. *)
Lemma getRegFuncs_README (reg : Regexp) :
  Compile "^(test)?\w*@;com$" = inl reg ->
  getRegFuncs "Required;Match(/^(test)?\w*@;com$/)" "d1;d2" "Password2" =
  Ret ([mkValidFunc "Match" "d2" [ARegexp reg; AStr "Password2.Match"]],
       "Required;", "d1").
Proof.
  intros Hc. unfold getRegFuncs.
  change (strings.Index "Required;Match(/^(test)?\w*@;com$/)" "Match(/") with 9%Z.
  change (strings.LastIndex "Required;Match(/^(test)?\w*@;com$/)" "/)") with 33%Z.
  cbn [Z.eqb Z.ltb Z.compare Pos.compare Pos.compare_cont].
  change (strings.slice "Required;Match(/^(test)?\w*@;com$/)"
            (9 + Z.of_nat (String.length "Match(/")) 33)
    with (Some "^(test)?\w*@;com$").
  cbn [sliced bind]. rewrite Hc. reflexivity.
Qed.

End MatchExtraction.

(** ** Concrete runs *)

Section Runs.

#[local] Existing Instance Demo.library.

Ltac run := match goal with |- ?l = ?r => exact (@eq_refl _ r <: l = r) end.

(** C6.  Two records on which the descriptions go astray once a
    [Match(/.../)] clause is extracted.  With one description for all the
    clauses, only the [Match] rule receives it and [Required] is compiled
    with the empty description.  With one description per clause and the
    [Match] clause in the middle, [Min] at index 2 of the rebuilt
    annotation [Required;;Min(1)] finds no index 2 in the rebuilt
    descriptions [d1;d3] and is compiled with the empty description, not
    with [d3].  On the string [a], which satisfies [Required] and
    [Match(/a/)] and not [Min(1)], [Valid] then reports the default
    message of [Min] in both cases, not [d3] and not [bad]. *)
Theorem descriptions_after_Match :
  getValidFuncs Demo.funcs (Demo.field "P" "Required;Match(/a/)" "bad") =
    Ret [mkValidFunc "Match" "bad" [ARegexp "a"; AStr "P.Match"];
         mkValidFunc "Required" "" [AStr "P.Required"]]
  /\ getRegFuncs "Required;Match(/a/);Min(1)" "d1;d2;d3" "N" =
       Ret ([mkValidFunc "Match" "d2" [ARegexp "a"; AStr "N.Match"]],
            "Required;;Min(1)", "d1;d3")
  /\ getValidFuncs Demo.funcs (Demo.field "N" "Required;Match(/a/);Min(1)" "d1;d2;d3") =
       Ret [mkValidFunc "Match" "d2" [ARegexp "a"; AStr "N.Match"];
            mkValidFunc "Required" "d1" [AStr "N.Required"];
            mkValidFunc "Min" "" [AInt 1; AStr "N.Min"]]
  /\ returned (Valid Demo.funcs Demo.fresh
                 (IStruct [(Demo.field "N" "Required;Match(/a/);Min(1)" "d1;d2;d3",
                            Demo.VString "a")])) =
       Fail (ErrorsNew "default message of Min")
  /\ returned (Valid Demo.funcs Demo.fresh
                 (IStruct [(Demo.field "P" "Min(1);Match(/a/)" "bad",
                            Demo.VString "a")])) =
       Fail (ErrorsNew "default message of Min").
Proof.
  split; [run|]. split; [run|]. split; [run|]. split; run.
Qed.


(** C3, a counterexample: [NoMatch] is not among the infrastructure
    operations the spec lists, and [AddCustomFunc] refuses it. *)
Lemma AddCustomFunc_NoMatch :
  ("NoMatch" ∉ Spec.reserved)
  /\ AddCustomFunc Demo.funcs "NoMatch" (fun v _ _ => Some v) =
       (Demo.funcs, Some (InvalidFunctionName "NoMatch")).
Proof.
  split; [|reflexivity].
  unfold Spec.reserved. rewrite !elem_of_cons, elem_of_nil.
  intuition discriminate.
Qed.


(** C8, a counterexample: the key [a.b.c], split on its first dot, has
    the field [a] and the name [b.c]; the error of the failing rule has
    the empty [Field] and the whole key as [Name]. *)
Lemma key_with_two_dots :
  Spec.field "a.b.c" = "a" /\ Spec.name "a.b.c" = "b.c"
  /\ let v := fst (apply Demo.fresh (Required "a.b.c") Demo.VNil "") in
     Errors v = [O]
     /\ Key (deref v O) = "a.b.c"
     /\ Field (deref v O) = ""
     /\ Name (deref v O) = "a.b.c"
     /\ Field (deref v O) <> Spec.field "a.b.c"
     /\ Name (deref v O) <> Spec.name "a.b.c".
Proof.
  split; [run|]. split; [run|]. cbv zeta.
  assert (EF : Field (deref (fst (apply Demo.fresh (Required "a.b.c") Demo.VNil "")) O)
               = "") by run.
  assert (EN : Name (deref (fst (apply Demo.fresh (Required "a.b.c") Demo.VNil "")) O)
               = "a.b.c") by run.
  split; [run|]. split; [run|]. split; [exact EF|]. split; [exact EN|].
  rewrite EF, EN. split; discriminate.
Qed.






(** C8, as amended: the error of [Required] on the empty [Name], and the
    keys of the rules of [Amount]. *)
Lemma error_identity_witness :
  IsSatisfied (Required "Name.Required") (Demo.VString "") = false
  /\ (exists a,
        Error' (snd (apply Demo.fresh (Required "Name.Required")
                       (Demo.VString "") "")) = Some a
        /\ Key (deref (fst (apply Demo.fresh (Required "Name.Required")
                              (Demo.VString "") "")) a) = "Name.Required")
  /\ Demo.funcs !! "Match" = Some (FMethod Method.Match)
  /\ getValidFuncs Demo.funcs
       (Demo.field "Amount" "Required;Range(1, 140)" "") =
       Ret [mkValidFunc "Required" "" [AStr "Amount.Required"];
            mkValidFunc "Range" "" [AInt 1; AInt 140; AStr "Amount.Range"]]
  /\ Forall (fun vf =>
                  exists chk,
                    checkerOf Demo.funcs vf = Some chk
                    /\ GetKey chk = "Amount" +:+ "." +:+ ValidFunc_Name vf)
          [mkValidFunc "Required" "" [AStr "Amount.Required"];
           mkValidFunc "Range" "" [AInt 1; AInt 140; AStr "Amount.Range"]].
Proof.
  assert (Hsat : IsSatisfied (Required "Name.Required") (Demo.VString "") = false)
    by reflexivity.
  assert (HM : Demo.funcs !! "Match" = Some (FMethod Method.Match)) by run.
  assert (H : getValidFuncs Demo.funcs
                (Demo.field "Amount" "Required;Range(1, 140)" "") =
              Ret [mkValidFunc "Required" "" [AStr "Amount.Required"];
                   mkValidFunc "Range" ""
                     [AInt 1; AInt 140; AStr "Amount.Range"]]) by run.
  destruct error_identity as [Happly Hkeys].
  split; [exact Hsat|]. split.
  - destruct (Happly Demo.fresh (Required "Name.Required") (Demo.VString "") ""
                Hsat) as (a & Ha & Hk & _).
    exists a. split; [exact Ha | exact Hk].
  - split; [exact HM|]. split; [exact H|].
    exact (Hkeys Demo.funcs _ _ HM H).
Defined.


End Runs.

(** ** Further properties: the extraction pass *)

Section Extraction.

Context {L : Library}.

Lemma HasPrefix_length (p s : string) :
  strings.HasPrefix s p = true -> (String.length p <= String.length s)%nat.
Proof.
  revert s. induction p as [|a p IH]; intros s H; cbn [String.length]; [lia|].
  destruct s as [|b s]; cbn [strings.HasPrefix] in H; [discriminate|].
  destruct (Ascii.eqb a b); [|discriminate].
  apply IH in H. cbn [String.length]. lia.
Qed.

(** An offset [strings.Index] returns is the start of an occurrence that
    fits in the text. *)
Lemma indexFrom_fits (sub s : string) :
  forall pos,
    strings.indexFrom s sub pos = (-1)%Z
    \/ (pos <= strings.indexFrom s sub pos
        /\ strings.indexFrom s sub pos + Z.of_nat (String.length sub)
           <= pos + Z.of_nat (String.length s))%Z.
Proof.
  induction s as [|c s IH]; intros pos; cbn [strings.indexFrom].
  - destruct (strings.HasPrefix "" sub) eqn:Hp; [right | left; reflexivity].
    apply HasPrefix_length in Hp. lia.
  - destruct (strings.HasPrefix (String c s) sub) eqn:Hp.
    + right. apply HasPrefix_length in Hp. lia.
    + destruct (IH (pos + 1)%Z) as [->|H]; [left; reflexivity | right].
      cbn [String.length]. lia.
Qed.

Lemma lastIndexFrom_fits (sub s : string) :
  forall pos,
    (0 <= pos)%Z ->
    strings.lastIndexFrom s sub pos = (-1)%Z
    \/ (pos <= strings.lastIndexFrom s sub pos
        /\ strings.lastIndexFrom s sub pos + Z.of_nat (String.length sub)
           <= pos + Z.of_nat (String.length s))%Z.
Proof.
  induction s as [|c s IH]; intros pos Hpos; cbn [strings.lastIndexFrom].
  - destruct (strings.HasPrefix "" sub) eqn:Hp; [right | left; reflexivity].
    apply HasPrefix_length in Hp. lia.
  - cbv zeta. destruct (IH (pos + 1)%Z) as [Hl|Hl]; [lia| |].
    + rewrite Hl. cbn [Z.leb Z.compare].
      destruct (strings.HasPrefix (String c s) sub) eqn:Hp;
        [right | left; reflexivity].
      apply HasPrefix_length in Hp. lia.
    + destruct (Z.leb_spec 0 (strings.lastIndexFrom s sub (pos + 1))); [|lia].
      right. cbn [String.length]. lia.
Qed.

Lemma slice_Some (s : string) (lo hi : Z) :
  (0 <= lo <= hi)%Z -> (hi <= Z.of_nat (String.length s))%Z ->
  strings.slice s lo hi =
  Some (strings.take (Z.to_nat (hi - lo)) (strings.drop (Z.to_nat lo) s)).
Proof.
  intros H1 H2. unfold strings.slice.
  destruct (Z.leb_spec 0 lo); [|lia].
  destruct (Z.leb_spec lo hi); [|lia].
  destruct (Z.leb_spec hi (Z.of_nat (String.length s))); [|lia].
  reflexivity.
Qed.

Lemma slice_None (s : string) (lo hi : Z) :
  (hi < lo)%Z -> strings.slice s lo hi = None.
Proof.
  intros H. unfold strings.slice.
  destruct (Z.leb_spec lo hi); [lia|].
  now rewrite andb_false_r.
Qed.

Lemma drop_length (n : nat) (s : string) :
  String.length (strings.drop n s) = (String.length s - n)%nat.
Proof.
  revert s. induction n as [|n IH]; intros s; cbn [strings.drop]; [lia|].
  destruct s as [|c s]; [reflexivity|]. cbn [String.length]. now rewrite IH.
Qed.

Lemma take_all (n : nat) (s : string) :
  (String.length s <= n)%nat -> strings.take n s = s.
Proof.
  revert s. induction n as [|n IH]; intros s H.
  - destruct s; [reflexivity | cbn in H; lia].
  - destruct s as [|c s]; [reflexivity|]. cbn [strings.take].
    rewrite IH; [reflexivity | cbn in H; lia].
Qed.

(** Every outcome of [getRegFuncs], read off the two offsets: no
    [Match(/], nothing to do; the last [/)] before it, the error; the
    last [/)] inside it, the panic of the slice; otherwise the pattern is
    the text between the end of the first [Match(/] and the last [/)], it
    is compiled, and the annotation left is what precedes the [Match(/],
    trimmed, followed by what follows the [/)], trimmed. *)
Theorem getRegFuncs_outcome (tag errDescTag key : string) :
  let index := strings.Index tag "Match(/" in
  let end_ := strings.LastIndex tag "/)" in
  getRegFuncs tag errDescTag key =
  if (index =? -1)%Z then Ret ([], tag, errDescTag)
  else if (end_ <? index)%Z then Fail InvalidMatchFunction
  else if (end_ <? index + 7)%Z then Panic "slice bounds out of range"
  else
    match Compile (strings.take (Z.to_nat (end_ - (index + 7)))
                     (strings.drop (Z.to_nat (index + 7)) tag)) with
    | inr msg => Fail (RegexpError msg)
    | inl reg =>
        Ret ([mkValidFunc "Match" (fst (regDescriptions tag errDescTag))
                [ARegexp reg; AStr (key +:+ ".Match")]],
             strings.TrimSpace (strings.take (Z.to_nat index) tag)
             +:+ strings.TrimSpace (strings.drop (Z.to_nat (end_ + 2)) tag),
             snd (regDescriptions tag errDescTag))
    end.
Proof.
  cbv zeta. unfold getRegFuncs.
  destruct (Z.eqb_spec (strings.Index tag "Match(/") (-1)) as [|Hidx];
    [reflexivity|].
  destruct (Z.ltb_spec (strings.LastIndex tag "/)") (strings.Index tag "Match(/"))
    as [|Hle]; [reflexivity|].
  change (Z.of_nat (String.length "Match(/")) with 7%Z.
  change (Z.of_nat (String.length "/)")) with 2%Z.
  pose proof (indexFrom_fits "Match(/" tag 0) as Hi.
  pose proof (lastIndexFrom_fits "/)" tag 0 ltac:(lia)) as He.
  fold (strings.Index tag "Match(/") in Hi.
  fold (strings.LastIndex tag "/)") in He.
  change (Z.of_nat (String.length "Match(/")) with 7%Z in Hi.
  change (Z.of_nat (String.length "/)")) with 2%Z in He.
  destruct Hi as [Hi|Hi]; [contradiction|].
  destruct He as [He|He]; [lia|].
  destruct (Z.ltb_spec (strings.LastIndex tag "/)")
              (strings.Index tag "Match(/" + 7)) as [Hlt|Hge].
  - rewrite slice_None by lia. reflexivity.
  - rewrite slice_Some by lia. cbn [sliced bind].
    destruct (Compile _) as [reg|msg]; [|reflexivity].
    unfold strings.sliceTo, strings.sliceFrom.
    rewrite !slice_Some by lia.
    fold (regDescriptions tag errDescTag).
    destruct (regDescriptions tag errDescTag) as [regDescTag newDesc].
    cbn [sliced bind fst snd].
    rewrite Z.sub_0_r. change (Z.to_nat 0) with O. cbn [strings.drop].
    rewrite (take_all _ (strings.drop _ tag))
      by (rewrite drop_length; lia).
    reflexivity.
Qed.







End Extraction.

(** ** Further properties: what a run does to the context *)

Section Frame.

Context {L : Library}.

(** On the arguments [mergeParam] builds, a method either is refused by
    [reflect] or is the validation of the validator [checker] gives. *)
Lemma invoke_mergeParam (m : Method.t) (v : Validation) (obj : Obj)
    (errDesc : string) (params : list Arg) :
  invoke m v (mergeParam obj errDesc params) =
  match checker m params with
  | Some chk =>
      Some (fst (apply v chk obj errDesc), Some (snd (apply v chk obj errDesc)))
  | None => None
  end.
Proof.
  unfold mergeParam.
  destruct m; cbn;
    repeat (try reflexivity;
            match goal with
            | |- context [?l ++ [AStr errDesc]] =>
                is_var l; destruct l as [|[] ?]; cbn
            | |- context [apply ?a ?b ?c ?d] => destruct (apply a b c d); cbn
            end).
Qed.

(** What the dispatch of a rule with at least one parameter can be, the
    same on every context: an error that leaves the context as it is, or
    the validation of one validator. *)
Lemma Call_cases (funcs : gmap string RegFunc) (name : string) (obj : Obj)
    (errDesc : string) (params : list Arg) :
  params <> [] ->
  (exists e, forall v,
      Call funcs name v (mergeParam obj errDesc params) = (v, Fail e))
  \/ (exists chk, forall v,
         Call funcs name v (mergeParam obj errDesc params) =
         (fst (apply v chk obj errDesc),
          Ret (Some (snd (apply v chk obj errDesc))))).
Proof.
  intros Hne. unfold Call.
  destruct (funcs !! name) as [[m|f]|]; [| |left; eauto].
  - destruct (negb _); [left; eauto|]. cbn [reflectCall].
    destruct (checker m params) as [chk|] eqn:Hchk.
    + right. exists chk. intros v. now rewrite invoke_mergeParam, Hchk.
    + left. eexists. intros v. now rewrite invoke_mergeParam, Hchk.
  - left. destruct (negb _) eqn:Hn; [eauto|]. exfalso.
    apply negb_false_iff, Z.eqb_eq in Hn.
    destruct params as [|p params]; [contradiction|].
    unfold mergeParam, NumIn in Hn. cbn [funcIn app] in Hn.
    rewrite !length_cons, length_app in Hn. cbn [length] in Hn. lia.
Qed.

(** The rules of an annotation that compiles all have parameters: the
    key at least. *)
Lemma getValidFuncs_params (funcs : gmap string RegFunc) (f : StructField)
    (vfs : list ValidFunc) :
  getValidFuncs funcs f = Ret vfs ->
  Forall (fun vf => ValidFunc_Params vf <> []) vfs.
Proof.
  intros H. apply getValidFuncs_Ret in H. cbv zeta in H.
  destruct H as (vfs0 & newTag & newDesc & more & Hreg & -> & _ & _ & Hw).
  apply Forall_app; split.
  - destruct Hreg as [(_ & -> & _)|Hreg]; [constructor|].
    apply getRegFuncs_Ret in Hreg.
    destruct Hreg as [(_ & -> & _)|(_ & pat & reg & d & b & a & _ & _ & -> & _)];
      repeat constructor. discriminate.
  - eapply Forall_impl; [exact Hw|].
    intros vf (m & chk & _ & Hchk & _) Hnil. rewrite Hnil in Hchk.
    destruct m; discriminate Hchk.
Qed.

Lemma apply_firstWins (v : Validation) (chk : Validator Regexp) (obj : Obj)
    (errDesc : string) :
  firstWins v -> firstWins (fst (apply v chk obj errDesc)).
Proof.
  intros H. destruct (IsSatisfied chk obj) eqn:Hsat.
  - now rewrite apply_success.
  - destruct (apply_failure v chk obj errDesc Hsat) as (e & -> & _).
    apply setError_firstWins; [apply alloc_fresh | now apply alloc_firstWins].
Qed.

Lemma grows_refl (v : Validation) : grows v v.
Proof. repeat split; auto. Qed.

Lemma grows_trans (v1 v2 v3 : Validation) :
  grows v1 v2 -> grows v2 v3 -> grows v1 v3.
Proof.
  intros (H1 & H2 & H3) (H4 & H5 & H6). repeat split.
  - etransitivity; eassumption.
  - etransitivity; eassumption.
  - auto.
Qed.

Lemma apply_grows (v : Validation) (chk : Validator Regexp) (obj : Obj)
    (errDesc : string) :
  grows v (fst (apply v chk obj errDesc)).
Proof.
  destruct (IsSatisfied chk obj) eqn:Hsat.
  - rewrite apply_success by exact Hsat. apply grows_refl.
  - destruct (apply_failure v chk obj errDesc Hsat) as (e & -> & _).
    cbn [fst]. repeat split.
    + apply prefix_app_r. reflexivity.
    + apply prefix_app_r. reflexivity.
    + intros f a Hf. rewrite mapGet_setError.
      change (ErrorsMap (fst (alloc v e))) with (ErrorsMap v). now rewrite Hf.
Qed.

(** A property of contexts that [apply] keeps is kept by the rule loop
    and by the field loop. *)
Lemma validFields_keeps (P : Validation -> Validation -> Prop)
    (funcs : gmap string RegFunc) :
  (forall v, P v v) ->
  (forall v1 v2 v3, P v1 v2 -> P v2 v3 -> P v1 v3) ->
  (forall v chk obj d, P v (fst (apply v chk obj d))) ->
  forall fields v, P v (after (validFields funcs v fields)).
Proof.
  intros Hrefl Htrans Happly.
  assert (Hrules : forall obj vfs, Forall (fun vf => ValidFunc_Params vf <> []) vfs ->
                     forall v, P v (after (validRules funcs v obj vfs))).
  { intros obj vfs Hvfs. induction Hvfs as [|vf vfs Hvf _ IH]; intros v;
      cbn [validRules after]; [apply Hrefl|].
    destruct (Call_cases funcs (ValidFunc_Name vf) obj (ValidFunc_ErrMsg vf)
                (ValidFunc_Params vf) Hvf) as [[e He]|[chk Hc]].
    - rewrite He. cbn [after]. apply Hrefl.
    - rewrite Hc.
      destruct (HasErrors _); cbn [after]; [apply Happly|].
      eapply Htrans; [apply Happly | apply IH]. }
  induction fields as [|[f obj] fields IH]; intros v;
    cbn [validFields after]; [apply Hrefl|].
  destruct (getValidFuncs funcs f) as [vfs|e|p] eqn:Hf; cbn [after];
    try apply Hrefl.
  pose proof (Hrules obj vfs (getValidFuncs_params funcs f vfs Hf) v) as Hr.
  destruct (returned (validRules funcs v obj vfs)); cbn [after]; try exact Hr.
  eapply Htrans; [exact Hr | apply IH].
Qed.

(** [Valid] only adds to the context, for every registry and every
    value: the errors recorded before the call are still there, at the
    same places, and the map still sends the same fields to the same
    errors. *)
Theorem Valid_grows (funcs : gmap string RegFunc) (v : Validation) (obj : Input) :
  grows v (after (Valid funcs v obj)).
Proof.
  destruct obj as [fields|fields|]; cbn [Valid after]; try apply grows_refl;
    apply (validFields_keeps grows funcs grows_refl grows_trans apply_grows).
Qed.

(** [Valid] keeps the first-wins invariant of the context, for every
    registry and every value. *)
Theorem Valid_firstWins (funcs : gmap string RegFunc) (v : Validation)
    (obj : Input) :
  firstWins v -> firstWins (after (Valid funcs v obj)).
Proof.
  intros Hv.
  assert (H : forall fields,
             firstWins v -> firstWins (after (validFields funcs v fields))).
  { intros fields.
    apply (validFields_keeps (fun v v' => firstWins v -> firstWins v') funcs);
      [auto | auto |]. intros; now apply apply_firstWins. }
  destruct obj as [fields|fields|]; cbn [Valid after]; auto.
Qed.

(** Either [Valid] leaves the context exactly as it found it, or it
    returns the message of the first error of the context it leaves: it
    never records an error and returns [nil] or another error. *)
Theorem Valid_touches (funcs : gmap string RegFunc) (v : Validation) (obj : Input) :
  after (Valid funcs v obj) = v
  \/ exists a,
      head (Errors (after (Valid funcs v obj))) = Some a
      /\ returned (Valid funcs v obj) =
           Fail (ErrorsNew (Message (deref (after (Valid funcs v obj)) a))).
Proof.
  assert (Hhead : forall v', HasErrors v' = true ->
                    exists a, head (Errors v') = Some a
                              /\ default O (head (Errors v')) = a).
  { intros v' H. unfold HasErrors in H.
    destruct (Errors v') as [|a es]; [discriminate | eauto]. }
  assert (Hrules : forall o vfs,
             Forall (fun vf => ValidFunc_Params vf <> []) vfs ->
             forall v,
               (after (validRules funcs v o vfs) = v
                /\ exists u, returned (validRules funcs v o vfs) = Ret u)
               \/ (after (validRules funcs v o vfs) = v
                   /\ exists e, returned (validRules funcs v o vfs) = Fail e)
               \/ exists a,
                   head (Errors (after (validRules funcs v o vfs))) = Some a
                   /\ returned (validRules funcs v o vfs) =
                        Fail (ErrorsNew
                                (Message (deref (after (validRules funcs v o vfs)) a)))).
  { intros o vfs Hvfs. induction Hvfs as [|vf vfs Hvf _ IH]; intros v0;
      cbn [validRules after returned]; [left; eauto|].
    destruct (Call_cases funcs (ValidFunc_Name vf) o (ValidFunc_ErrMsg vf)
                (ValidFunc_Params vf) Hvf) as [[e He]|[chk Hc]].
    - rewrite He. cbn [after returned]. right. left. eauto.
    - rewrite Hc.
      destruct (HasErrors (fst (apply v0 chk o _))) eqn:HE; cbn [after returned].
      + right. right. destruct (Hhead _ HE) as (a & Ha & Hd).
        exists a. rewrite Hd. auto.
      + assert (Hsame : fst (apply v0 chk o (ValidFunc_ErrMsg vf)) = v0).
        { destruct (IsSatisfied chk o) eqn:Hsat;
            [now rewrite apply_success|].
          destruct (apply_failure v0 chk o (ValidFunc_ErrMsg vf) Hsat)
            as (e & Heq & _).
          rewrite Heq in HE. cbn [fst] in HE. unfold HasErrors, setError in HE.
          cbn [Errors] in HE. rewrite length_app in HE. cbn [length] in HE.
          destruct (Z.ltb_spec 0 (Z.of_nat (length (Errors (fst (alloc v0 e))) + 1)));
            [discriminate | lia]. }
        rewrite Hsame. apply IH. }
  assert (Hfields : forall fields v,
             after (validFields funcs v fields) = v
             \/ exists a,
                 head (Errors (after (validFields funcs v fields))) = Some a
                 /\ returned (validFields funcs v fields) =
                      Fail (ErrorsNew
                              (Message (deref (after (validFields funcs v fields)) a)))).
  { induction fields as [|[f o] fields IH]; intros v0;
      cbn [validFields after returned]; [left; reflexivity|].
    destruct (getValidFuncs funcs f) as [vfs|e|p] eqn:Hf; cbn [after returned];
      try (left; reflexivity).
    destruct (Hrules o vfs (getValidFuncs_params funcs f vfs Hf) v0)
      as [(Ha & u & Hr)|[(Ha & e & Hr)|(a & Ha & Hr)]]; rewrite Hr.
    - cbn [after returned]. rewrite Ha. apply IH.
    - left. exact Ha.
    - right. exists a. rewrite <- Hr. auto. }
  destruct obj as [fields|fields|]; cbn [Valid after returned];
    try apply Hfields. left. reflexivity.
Qed.

(** What [Valid] returns and which rules it invokes do not depend on
    the context, as long as the context holds no error; so a context
    reset by [Clear], whatever it held, gives the verdict of a new one. *)
Theorem Valid_verdict (funcs : gmap string RegFunc) (obj : Input) :
  (forall v1 v2,
      HasErrors v1 = false -> HasErrors v2 = false ->
      returned (Valid funcs v1 obj) = returned (Valid funcs v2 obj)
      /\ invoked (Valid funcs v1 obj) = invoked (Valid funcs v2 obj))
  /\ forall v,
      returned (Valid funcs (Clear v) obj) =
        returned (Valid funcs newValidation obj)
      /\ invoked (Valid funcs (Clear v) obj) =
           invoked (Valid funcs newValidation obj).
Proof.
  assert (Hmain : forall v1 v2,
      HasErrors v1 = false -> HasErrors v2 = false ->
      returned (Valid funcs v1 obj) = returned (Valid funcs v2 obj)
      /\ invoked (Valid funcs v1 obj) = invoked (Valid funcs v2 obj));
    [|split; [exact Hmain | intros v; now apply Hmain]].
  intros v1 v2.
  assert (Hrules : forall o vfs,
             Forall (fun vf => ValidFunc_Params vf <> []) vfs ->
             forall v1 v2, HasErrors v1 = false -> HasErrors v2 = false ->
               returned (validRules funcs v1 o vfs) =
                 returned (validRules funcs v2 o vfs)
               /\ invoked (validRules funcs v1 o vfs) =
                    invoked (validRules funcs v2 o vfs)
               /\ (forall u, returned (validRules funcs v1 o vfs) = Ret u ->
                     after (validRules funcs v1 o vfs) = v1
                     /\ after (validRules funcs v2 o vfs) = v2)).
  { intros o vfs Hvfs. induction Hvfs as [|vf vfs Hvf _ IH]; intros w1 w2 H1 H2;
      cbn [validRules after returned invoked]; [auto|].
    destruct (Call_cases funcs (ValidFunc_Name vf) o (ValidFunc_ErrMsg vf)
                (ValidFunc_Params vf) Hvf) as [[e He]|[chk Hc]].
    - rewrite !He. cbn [after returned invoked].
      repeat split; discriminate.
    - rewrite !Hc. destruct (IsSatisfied chk o) eqn:Hsat.
      + rewrite !apply_success by exact Hsat. cbn [fst]. rewrite H1, H2.
        cbn [after returned invoked].
        destruct (IH w1 w2 H1 H2) as (Hr & Hi & Ha).
        rewrite Hr, Hi. repeat split; try reflexivity; apply (Ha u);
          congruence.
      + destruct (apply_failure_fresh w1 chk o (ValidFunc_ErrMsg vf) H1 Hsat)
          as [-> ->].
        destruct (apply_failure_fresh w2 chk o (ValidFunc_ErrMsg vf) H2 Hsat)
          as [-> ->].
        cbn [after returned invoked]. repeat split; discriminate. }
  assert (Hfields : forall fields v1 v2,
             HasErrors v1 = false -> HasErrors v2 = false ->
             returned (validFields funcs v1 fields) =
               returned (validFields funcs v2 fields)
             /\ invoked (validFields funcs v1 fields) =
                  invoked (validFields funcs v2 fields)).
  { induction fields as [|[f o] fields IH]; intros w1 w2 H1 H2;
      cbn [validFields after returned invoked]; [auto|].
    destruct (getValidFuncs funcs f) as [vfs|e|p] eqn:Hf;
      cbn [after returned invoked]; auto.
    destruct (Hrules o vfs (getValidFuncs_params funcs f vfs Hf) w1 w2 H1 H2)
      as (Hr & Hi & Ha).
    rewrite <- Hr.
    destruct (returned (validRules funcs w1 o vfs)) as [u|e|p] eqn:Hr1;
      cbn [after returned invoked]; try (split; [congruence | exact Hi]).
    destruct (Ha u eq_refl) as [-> ->].
    destruct (IH w1 w2 H1 H2) as [-> ->]. rewrite Hi. auto. }
  intros H1 H2.
  destruct obj as [fields|fields|]; cbn [Valid returned invoked]; auto.
Qed.

(** A record none of whose fields has an annotation passes, whatever its
    values, the registry and the context: nothing is compiled or invoked,
    and [Valid] returns [nil] even on a context that holds errors. *)
Theorem Valid_unannotated (funcs : gmap string RegFunc) (v : Validation)
    (obj : Input) :
  obj <> IOther ->
  Forall (fun fo => unannotated (fst fo) = true) (fieldsOf obj) ->
  Valid funcs v obj = mkRun [] v (Ret tt).
Proof.
  intros Hobj H.
  assert (Hf : forall fields,
             Forall (fun fo => unannotated (fst fo) = true) fields ->
             validFields funcs v fields = mkRun [] v (Ret tt)).
  { induction 1 as [|[f o] fields Hhd _ IH]; cbn [validFields]; [reflexivity|].
    unfold getValidFuncs. cbv zeta. cbn [fst] in Hhd. unfold unannotated in Hhd.
    rewrite Hhd. cbn [validRules returned after invoked app]. now rewrite IH. }
  destruct obj as [fields|fields|]; cbn [Valid fieldsOf] in *;
    [now apply Hf | now apply Hf | contradiction].
Qed.


End Frame.

(** ** Further properties: the registry and the compiler *)

Section RegistryMore.

Context {L : Library}.

Lemma init_list :
  init = list_to_map (map (fun m => (Method.Name m, FMethod m)) registered).
Proof.
  match goal with |- ?l = ?r => exact (@eq_refl _ r <: l = r) end.
Qed.

Lemma registered_NoDup :
  NoDup (map fst (map (fun m => (Method.Name m, @FMethod L m)) registered)).
Proof.
  rewrite map_map. cbn [map registered fst Method.Name].
  apply (bool_decide_unpack _). vm_compute. exact I.
Qed.

Lemma init_lookup_Some (name : string) (fn : RegFunc) :
  init !! name = Some fn ->
  exists m, m ∈ registered /\ Method.Name m = name /\ fn = FMethod m.
Proof.
  rewrite init_list. rewrite <- elem_of_list_to_map by exact registered_NoDup.
  rewrite list_elem_of_fmap.
  intros (m & Heq & Hm). injection Heq as -> ->. eauto.
Qed.

(** The registry at start-up holds the twenty methods of [registered],
    the validators and [SetError], each under its name, and nothing
    else. *)
Theorem init_registered (name : string) (fn : RegFunc) :
  init !! name = Some fn
  <-> exists m, m ∈ registered /\ Method.Name m = name /\ fn = FMethod m.
Proof.
  split; [apply init_lookup_Some|].
  intros (m & Hm & <- & ->).
  rewrite init_list. apply elem_of_list_to_map; [exact registered_NoDup|].
  apply list_elem_of_fmap. eauto.
Qed.

(** Soundness is an invariant of the registry: it holds at start-up and
    every [AddCustomFunc], refused or not, keeps it.  So no reserved name
    is ever bound, and a built-in method is never found under another
    name than its own. *)
Theorem registry_sound :
  sound init
  /\ forall funcs name f, sound funcs -> sound (fst (AddCustomFunc funcs name f)).
Proof.
  split.
  - split.
    + intros name Hname. destruct (init !! name) as [fn|] eqn:Hfn; [|reflexivity].
      exfalso. apply init_lookup_Some in Hfn. destruct Hfn as (m & Hm & <- & _).
      unfold registered in Hm. rewrite !elem_of_cons, elem_of_nil in Hm.
      repeat (destruct Hm as [->|Hm]); try contradiction;
        apply (bool_decide_pack _) in Hname; vm_compute in Hname; exact Hname.
    + intros name m Hfn. apply init_lookup_Some in Hfn.
      destruct Hfn as (m' & Hm & <- & Heq). injection Heq as ->. auto.
  - intros funcs name f [Hres Hmeth]. unfold AddCustomFunc.
    rewrite isUnFunc_reserved. case_bool_decide as Hname; cbn [fst];
      [split; assumption|].
    split.
    + intros name' Hname'. rewrite lookup_insert_ne by congruence. auto.
    + intros name' m. rewrite lookup_insert. case_decide; [discriminate|].
      apply Hmeth.
Qed.

(** Registrations compose as writes to a map: under one name the last
    one wins, under two names their order does not matter. *)
Theorem AddCustomFunc_compose (funcs : gmap string RegFunc) (name1 name2 : string)
    (f g : CustomFunc) :
  fst (AddCustomFunc (fst (AddCustomFunc funcs name1 f)) name2 g) =
  if decide (name1 = name2) then fst (AddCustomFunc funcs name2 g)
  else fst (AddCustomFunc (fst (AddCustomFunc funcs name2 g)) name1 f).
Proof.
  unfold AddCustomFunc.
  destruct (decide (name1 = name2)) as [->|Hne].
  - destruct (isUnFunc name2); cbn [fst]; [reflexivity|].
    apply insert_insert_eq.
  - destruct (isUnFunc name1), (isUnFunc name2); cbn [fst]; try reflexivity.
    apply insert_insert_ne. congruence.
Qed.




Lemma parseParam_hasKind (t : Kind) (s : string) (a : Arg) :
  parseParam t s = Ret a -> hasKind t a = true.
Proof.
  unfold parseParam. destruct t; try discriminate.
  - destruct (strconv.Atoi s); [|discriminate]. now intros [= <-].
  - now intros [= <-].
  - destruct (String.eqb elem "regexp.Regexp") eqn:He; cbn [negb];
      [|discriminate].
    destruct (Compile s); [|discriminate]. intros [= <-]. exact He.
Qed.

Lemma trimLoop_typed (fn : RegFunc) (s : list string) :
  forall i ts,
    trimLoop fn i s = Ret ts ->
    length ts = length s
    /\ forall j a, ts !! j = Some a ->
                   exists k, funcIn fn !! (i + j + 2)%nat = Some k
                             /\ hasKind k a = true.
Proof.
  induction s as [|si s IH]; intros i ts H; cbn [trimLoop] in H.
  - injection H as <-. split; [reflexivity|]. intros j a Hj. discriminate Hj.
  - destruct (funcIn fn !! (i + 2)%nat) as [t|] eqn:Ht; [|discriminate H].
    unfold bind in H.
    destruct (parseParam t (strings.TrimSpace si)) as [param| |] eqn:Hp;
      try discriminate H.
    destruct (trimLoop fn (S i) s) as [ts'| |] eqn:Hts; try discriminate H.
    injection H as <-. destruct (IH _ _ Hts) as [Hlen Hkind].
    split; [cbn [length]; now rewrite Hlen|].
    intros [|j] a Hj.
    + injection Hj as <-. exists t. rewrite Nat.add_0_r.
      split; [exact Ht | exact (parseParam_hasKind t _ _ Hp)].
    + destruct (Hkind j a Hj) as (k & Hk & Ha). exists k.
      split; [|exact Ha]. rewrite <- Hk. f_equal. lia.
Qed.

(** What [trim] returns: one value for each argument, of the kind of the
    parameter of the function it is for (the parameters after the context
    and the value), and the key last. *)
Theorem trim_typed (funcs : gmap string RegFunc) (name key : string)
    (s : list string) (ts : list Arg) :
  trim funcs name key s = Ret ts ->
  exists fn,
    funcs !! name = Some fn
    /\ length ts = S (length s)
    /\ last ts = Some (AStr key)
    /\ forall j a,
        (j < length s)%nat -> ts !! j = Some a ->
        exists k, funcIn fn !! (j + 2)%nat = Some k /\ hasKind k a = true.
Proof.
  unfold trim. intros H.
  destruct (funcs !! name) as [fn|]; [|discriminate H]. exists fn.
  unfold bind in H.
  destruct (trimLoop fn O s) as [ts0| |] eqn:Hts; try discriminate H.
  injection H as <-. destruct (trimLoop_typed fn s O ts0 Hts) as [Hlen Hkind].
  split; [reflexivity|]. split; [rewrite length_app; cbn [length]; lia|].
  split; [apply last_snoc|].
  intros j a Hj Ha. rewrite lookup_app_l in Ha by lia.
  exact (Hkind j a Ha).
Qed.

End RegistryMore.

(** ** Further properties: the error model *)

Section ErrorModelMore.

Context {L : Library}.



Lemma HasErrors_snoc (w : Validation) (l : list addr) (a : addr) :
  Errors w = l ++ [a] -> HasErrors w = true.
Proof.
  intros H. unfold HasErrors. rewrite H, length_app. cbn [length].
  destruct (Z.ltb_spec 0 (Z.of_nat (length l + 1))); [reflexivity | lia].
Qed.




(** What [SetError] records and what [ErrorMap] then holds for the
    field, on a context that respects the invariant: the new error has
    the field as [Key] and [Field] and the message as [Message] and
    [Tmpl]; the context has errors; and the map sends the field to an
    error of this field that is in the sequence, the new one when the
    field had none. *)
Theorem SetError_lookup (v : Validation) (fieldName errMsg : string) :
  firstWins v ->
  let w := fst (SetError v fieldName errMsg) in
  let err := snd (SetError v fieldName errMsg) in
  deref w err = {| Message := errMsg; Key := fieldName; Name := "";
                   Field := fieldName; Tmpl := errMsg; Value := None;
                   LimitValue := None |}
  /\ HasErrors w = true
  /\ exists a,
      mapGet (ErrorMap w) fieldName = Some a
      /\ Field (deref w a) = fieldName
      /\ a ∈ Errors w
      /\ (mapGet (ErrorMap v) fieldName = None -> a = err).
Proof.
  intros [Hwf Hmap]. cbv zeta.
  pose (e := {| Message := errMsg; Key := fieldName; Name := "";
                Field := fieldName; Tmpl := errMsg; Value := None;
                LimitValue := None |}).
  change (SetError v fieldName errMsg)
    with (setError (fst (alloc v e)) (snd (alloc v e)), snd (alloc v e)).
  cbn [fst snd].
  assert (Hnew : deref (fst (alloc v e)) (snd (alloc v e)) = e)
    by exact (deref_alloc_new v e).
  split; [exact Hnew|]. split.
  { apply (HasErrors_snoc _ (Errors v) (length (heap v))). reflexivity. }
  unfold ErrorMap. rewrite mapGet_setError, Hnew. cbn [Field e].
  rewrite String.eqb_refl.
  change (ErrorsMap (fst (alloc v e))) with (ErrorsMap v).
  destruct (mapGet (ErrorsMap v) fieldName) as [a|] eqn:Ha.
  - exists a. split; [reflexivity|].
    rewrite Hmap in Ha. unfold earliest in Ha.
    apply find_some in Ha. destruct Ha as [Hin Hfld].
    apply String.eqb_eq in Hfld.
    assert (Hlt : (a < length (heap v))%nat)
      by (rewrite Forall_forall in Hwf; apply Hwf, list_elem_of_In, Hin).
    split; [|split; [|discriminate]].
    + change (Field (deref (fst (alloc v e)) a) = fieldName).
      now rewrite deref_alloc_old.
    + unfold setError. cbn [Errors]. apply elem_of_app. left.
      apply list_elem_of_In, Hin.
  - exists (snd (alloc v e)). split; [reflexivity|].
    split; [exact (f_equal Field Hnew)|]. split; [|reflexivity].
    unfold setError. cbn [Errors]. apply elem_of_app. right.
    apply list_elem_of_singleton. reflexivity.
Qed.

(** The error a failing rule records, beside its key: the description
    as message when it is not blank and the default message of the
    validator otherwise, the value validated, the limit value of the
    validator, and the template found under the error's [Name]; the error
    is the last of the sequence, and the context has errors. *)
Theorem apply_error_content (v : Validation) (chk : Validator Regexp)
    (obj : Obj) (errDesc : string) :
  IsSatisfied chk obj = false ->
  let w := fst (apply v chk obj errDesc) in
  exists a,
    snd (apply v chk obj errDesc) = {| Error' := Some a; Ok := false |}
    /\ last (Errors w) = Some a
    /\ HasErrors w = true
    /\ Message (deref w a) =
         (if String.eqb (strings.TrimSpace errDesc) "" then DefaultMessage chk
          else errDesc)
    /\ Value (deref w a) = Some obj
    /\ LimitValue (deref w a) = GetLimitValue chk
    /\ Tmpl (deref w a) = default "" (MessageTmpls !! Name (deref w a)).
Proof.
  intros Hsat. cbv zeta. unfold apply. rewrite Hsat.
  destruct (match strings.Split (GetKey chk) "." with
            | [p0; p1] => (p0, p1)
            | _ => ("", GetKey chk)
            end) as [fld nm].
  match goal with |- context [alloc v ?e0] => set (e := e0) end.
  change (let '(v1, err) := alloc v e in
          (setError v1 err, {| Error' := Some err; Ok := false |}))
    with (setError (fst (alloc v e)) (snd (alloc v e)),
          {| Error' := Some (snd (alloc v e)); Ok := false |}).
  cbn [fst snd]. exists (snd (alloc v e)).
  split; [reflexivity|]. split; [apply last_snoc|]. split.
  { apply (HasErrors_snoc _ (Errors v) (length (heap v))). reflexivity. }
  change (deref (setError (fst (alloc v e)) (snd (alloc v e))) (snd (alloc v e)))
    with (deref (fst (alloc v e)) (snd (alloc v e))).
  rewrite (deref_alloc_new v e). subst e. cbn. auto.
Qed.

(** What [Validation.Error] does to the invariant.  Its error has the
    empty [Field] and is not entered in the map: on a context that
    respects the invariant, the context it leaves respects it exactly
    when the map already had an entry for the empty field.  Otherwise the
    manual error is the earliest error of the empty field and [ErrorMap]
    does not know it. *)
Theorem Error_invariant (v : Validation) (message : string) (args : list FmtArg) :
  firstWins v ->
  (firstWins (fst (Validation_Error v message args))
   <-> is_Some (mapGet (ErrorsMap v) ""))
  /\ forall f, f <> "" ->
               mapGet (ErrorsMap (fst (Validation_Error v message args))) f =
               earliest (fst (Validation_Error v message args)) f.
Proof.
  intros [Hwf Hmap].
  assert (H : exists text,
             fst (Validation_Error v message args) =
             {| heap := alter (setMessage text) (length (heap v))
                          (heap v ++ [zeroError]);
                Errors := Errors v ++ [length (heap v)];
                ErrorsMap := ErrorsMap v |})
    by (unfold Validation_Error, Result_Message; destruct args; cbn; eauto).
  destruct H as (text & ->).
  set (w := {| heap := alter (setMessage text) (length (heap v))
                         (heap v ++ [zeroError]);
               Errors := Errors v ++ [length (heap v)];
               ErrorsMap := ErrorsMap v |}).
  assert (Hold : forall a, (a < length (heap v))%nat -> deref w a = deref v a).
  { intros a Ha. unfold deref, w. cbn [heap].
    rewrite list_lookup_alter_ne by lia. now rewrite lookup_app_l. }
  assert (Hnew : Field (deref w (length (heap v))) = "").
  { unfold deref, w. cbn [heap].
    rewrite list_lookup_alter_eq, lookup_app_r by lia.
    now rewrite Nat.sub_diag. }
  assert (Hearliest : forall f,
             earliest w f =
             match earliest v f with
             | Some a => Some a
             | None => if String.eqb "" f then Some (length (heap v)) else None
             end).
  { intros f. unfold earliest. unfold w at 2. cbn [Errors].
    rewrite find_snoc, Hnew.
    rewrite (find_ext_in _ (fun a => String.eqb (Field (deref v a)) f)
               (Errors v)); [reflexivity|].
    eapply Forall_impl; [exact Hwf|]. cbv beta. intros a Ha. now rewrite Hold. }
  split.
  - split.
    + intros [_ Hw]. specialize (Hw ""). rewrite Hearliest in Hw.
      change (ErrorsMap w) with (ErrorsMap v) in Hw.
      destruct (mapGet (ErrorsMap v) "") as [a|] eqn:Ha; [eauto|].
      rewrite <- Hmap, Ha in Hw. discriminate Hw.
    + intros [a Ha]. split.
      * unfold w. cbn [heap Errors]. rewrite length_alter, length_app.
        cbn [length]. apply Forall_app. split.
        -- eapply Forall_impl; [exact Hwf|]. cbv beta. intros; lia.
        -- repeat constructor. lia.
      * intros f. rewrite Hearliest. change (ErrorsMap w) with (ErrorsMap v).
        rewrite <- Hmap.
        destruct (mapGet (ErrorsMap v) f) as [b|] eqn:Hb; [reflexivity|].
        destruct (String.eqb_spec "" f) as [<-|]; [congruence | reflexivity].
  - intros f Hf. rewrite Hearliest. change (ErrorsMap w) with (ErrorsMap v).
    rewrite <- Hmap.
    destruct (mapGet (ErrorsMap v) f) as [b|]; [reflexivity|].
    destruct (String.eqb_spec "" f) as [<-|]; [contradiction | reflexivity].
Qed.

End ErrorModelMore.

(** ** Further concrete runs *)

Section MoreRuns.

#[local] Existing Instance Demo.library.

Ltac run := match goal with |- ?l = ?r => exact (@eq_refl _ r <: l = r) end.

(** The invariant after validating the form, which records an error. *)
Lemma Valid_firstWins_witness :
  firstWins Demo.fresh
  /\ firstWins (after (Valid Demo.funcs Demo.fresh (IStruct Demo.form))).
Proof.
  assert (H : firstWins Demo.fresh)
    by (split; [constructor | intros f; reflexivity]).
  split; [exact H|].
  exact (Valid_firstWins Demo.funcs Demo.fresh (IStruct Demo.form) H).
Defined.


(** A context cleared of the error [stale] gives the verdict of a new
    one. *)
Lemma Valid_verdict_witness :
  HasErrors (Clear Demo.stale) = false
  /\ HasErrors Demo.fresh = false
  /\ returned (Valid Demo.funcs (Clear Demo.stale) (IStruct Demo.form)) =
     returned (Valid Demo.funcs Demo.fresh (IStruct Demo.form)).
Proof.
  assert (H1 : HasErrors (Clear Demo.stale) = false) by reflexivity.
  assert (H2 : HasErrors Demo.fresh = false) by reflexivity.
  split; [exact H1|]. split; [exact H2|].
  exact (proj1 (proj1 (Valid_verdict Demo.funcs (IStruct Demo.form)) _ _ H1 H2)).
Defined.

(** Two fields without rules, one with a blank annotation, on a context
    that holds an error. *)
Lemma Valid_unannotated_witness :
  IStruct [(Demo.field "Memo" "" "", Demo.VNil);
           (Demo.field "Note" "  " "not used", Demo.VInt 0)] <> IOther
  /\ Forall (fun fo => unannotated (fst fo) = true)
       (fieldsOf (IStruct [(Demo.field "Memo" "" "", Demo.VNil);
                           (Demo.field "Note" "  " "not used", Demo.VInt 0)]))
  /\ Valid Demo.funcs Demo.stale
       (IStruct [(Demo.field "Memo" "" "", Demo.VNil);
                 (Demo.field "Note" "  " "not used", Demo.VInt 0)]) =
     mkRun [] Demo.stale (Ret tt).
Proof.
  assert (Hne : IStruct [(Demo.field "Memo" "" "", Demo.VNil);
                         (Demo.field "Note" "  " "not used", Demo.VInt 0)]
                <> IOther) by discriminate.
  assert (Hf : Forall (fun fo => unannotated (fst fo) = true)
                 (fieldsOf (IStruct [(Demo.field "Memo" "" "", Demo.VNil);
                                     (Demo.field "Note" "  " "not used",
                                      Demo.VInt 0)]))).
  { cbn [fieldsOf]. constructor; [cbn [fst]; run|].
    constructor; [cbn [fst]; run|]. constructor. }
  split; [exact Hne|]. split; [exact Hf|].
  exact (Valid_unannotated Demo.funcs Demo.stale _ Hne Hf).
Defined.


(** [Required] is registered at start-up. *)
Lemma init_registered_witness :
  Method.Required ∈ registered
  /\ Demo.funcs !! "Required" = Some (FMethod Method.Required).
Proof.
  assert (Hm : Method.Required ∈ registered)
    by (unfold registered; rewrite !elem_of_cons; auto 20).
  split; [exact Hm|].
  apply (init_registered "Required" (FMethod Method.Required)).
  exists Method.Required. split; [exact Hm|]. split; reflexivity.
Defined.

(** The registry is sound at start-up and after a registration. *)
Lemma registry_sound_witness :
  sound Demo.funcs
  /\ sound (fst (AddCustomFunc Demo.funcs "Even" (fun v _ _ => Some v))).
Proof.
  destruct registry_sound as [Hinit Hadd].
  split; [exact Hinit|]. exact (Hadd _ "Even" _ Hinit).
Defined.



(** The two arguments of [Range]. *)
Lemma trim_typed_witness :
  trim Demo.funcs "Range" "Amount.Range" ["1"; " 140"] =
    Ret [AInt 1; AInt 140; AStr "Amount.Range"]
  /\ exists fn,
      Demo.funcs !! "Range" = Some fn
      /\ length [@AInt Demo.library 1; AInt 140; AStr "Amount.Range"] = 3%nat
      /\ last [@AInt Demo.library 1; AInt 140; AStr "Amount.Range"] =
           Some (AStr "Amount.Range").
Proof.
  assert (H : trim Demo.funcs "Range" "Amount.Range" ["1"; " 140"] =
              Ret [AInt 1; AInt 140; AStr "Amount.Range"]) by run.
  split; [exact H|].
  destruct (trim_typed Demo.funcs _ _ _ _ H) as (fn & Hfn & Hlen & Hlast & _).
  exists fn. auto.
Defined.

(** The descriptions of [Amount], one per clause. *)
Lemma getValidFuncs_without_Match_witness :
  getValidFuncs Demo.funcs
    (Demo.field "Amount" "Required;Range(1, 140)"
       "amount required;amount out of range") =
    Ret [Demo.amountRequired; Demo.amountRange]
  /\ strings.Index (strings.TrimSpace "Required;Range(1, 140)") "Match(/" = (-1)%Z
  /\ map ValidFunc_Name [Demo.amountRequired; Demo.amountRange] =
       map clauseName
         (clauses (strings.TrimSpace
                     (Tag_Get (Demo.field "Amount" "Required;Range(1, 140)"
                                 "amount required;amount out of range") ValidTag))).
Proof.
  assert (H : getValidFuncs Demo.funcs
                (Demo.field "Amount" "Required;Range(1, 140)"
                   "amount required;amount out of range") =
              Ret [Demo.amountRequired; Demo.amountRange]) by run.
  assert (Hi : strings.Index
                 (strings.TrimSpace
                    (Tag_Get (Demo.field "Amount" "Required;Range(1, 140)"
                                "amount required;amount out of range") ValidTag))
                 "Match(/" = (-1)%Z) by run.
  split; [exact H|]. split; [run|].
  exact (proj1 (getValidFuncs_without_Match Demo.funcs _ _ H Hi)).
Defined.


(** [SetError] on a fresh context. *)
Lemma SetError_lookup_witness :
  firstWins Demo.fresh
  /\ HasErrors (fst (SetError Demo.fresh "Name" "name required")) = true
  /\ exists a,
      mapGet (ErrorMap (fst (SetError Demo.fresh "Name" "name required"))) "Name"
      = Some a
      /\ Field (deref (fst (SetError Demo.fresh "Name" "name required")) a) = "Name".
Proof.
  assert (H : firstWins Demo.fresh)
    by (split; [constructor | intros f; reflexivity]).
  split; [exact H|].
  destruct (SetError_lookup Demo.fresh "Name" "name required" H)
    as (_ & HE & a & Ha & Hf & _).
  split; [exact HE|]. exists a. auto.
Defined.

(** The error of [Required] on the empty string, without description. *)
Lemma apply_error_content_witness :
  IsSatisfied (Required "Name.Required") (Demo.VString "") = false
  /\ exists a,
      Message (deref (fst (apply Demo.fresh (Required "Name.Required")
                             (Demo.VString "") " ")) a) =
        DefaultMessage (Required "Name.Required")
      /\ Value (deref (fst (apply Demo.fresh (Required "Name.Required")
                              (Demo.VString "") " ")) a) = Some (Demo.VString "").
Proof.
  assert (H : IsSatisfied (Required "Name.Required") (Demo.VString "") = false)
    by reflexivity.
  split; [exact H|].
  destruct (apply_error_content Demo.fresh (Required "Name.Required")
              (Demo.VString "") " " H) as (a & _ & _ & _ & Hm & Hv & _).
  exists a. split; [exact Hm | exact Hv].
Defined.

(** A manual error on a fresh context: the map has no entry for the
    empty field and the invariant is lost. *)
Lemma Error_invariant_witness :
  firstWins Demo.fresh
  /\ ~ firstWins (fst (Validation_Error Demo.fresh "manual" [])).
Proof.
  assert (H : firstWins Demo.fresh)
    by (split; [constructor | intros f; reflexivity]).
  split; [exact H|].
  destruct (Error_invariant Demo.fresh "manual" [] H) as [Hiff _].
  intros Hw. apply Hiff in Hw. destruct Hw as [a Ha]. discriminate Ha.
Defined.


End MoreRuns.
